(** * The instance table of the Tcl wrapping facility

    A shallow embedding of [_wrap_::InstanceTable]
    (Utilities/Cable/WrapTclFacility/wrapInstanceTable.cxx) and the
    properties of its name registry: the forward map from instance names
    to references, the reverse map from object addresses to names, the
    table of per-type delete functions and the temporary-name counter. *)

From Stdlib Require Import ZArith Ascii String List Lia.
From stdpp Require Import gmap strings list fin_maps.

Local Open Scope Z_scope.
Local Open Scope string_scope.

(** ** Data model *)

(** Addresses ([void*]) and type identities ([const Type*]) are pointers;
    both are modelled by their numeric value. *)
Abbreviation Address := Z (only parsing).
Abbreviation TypePtr := Z (only parsing).

(** Modelled from the spec: [CvQualifiedType] is declared in a header that
    is not part of the sources at hand.  It is an identity-comparable token
    for a native type plus its const/volatile qualification; [GetType]
    yields the unqualified [const Type*] that keys the delete-function map. *)
Record CvQualifiedType := {
  CvQualifiedType_GetType : TypePtr;
  CvQualifiedType_IsConst : bool;
  CvQualifiedType_IsVolatile : bool
}.

(** Modelled from the spec: [Reference] is declared in the same missing
    header.  [Reference(object, type)] is the value stored under a name:
    the object's address and its type. *)
Record Reference := {
  Reference_GetObject : Address;
  Reference_GetReferencedType : CvQualifiedType
}.

(** A [DeleteFunction] is a [void (*)(void*)].  Running it destroys the
    object; what the table can observe of that run are the destruction
    notifications ([DeleteCallBack]) that the destructors issue while the
    function executes.  A delete function is therefore modelled by the
    sequence of addresses it notifies, given the object it is called on. *)
Abbreviation DeleteFunction := (Address → list Address) (only parsing).

Record InstanceTable := {
  m_InstanceMap : gmap string Reference;
  m_AddressToNameMap : gmap Z string;
  m_DeleteFunctionMap : gmap Z (Z → list Z);
  m_TempNameNumber : Z
}.

(** The two exceptions thrown by the table.  The second one carries the
    type whose [Name()] the source passes to the exception. *)
Inductive Exception :=
| UndefinedInstanceNameException (name : string)
| UndefinedObjectTypeException (type : TypePtr).

(** What a call does that is visible in order: map updates, calls through
    a registered function pointer and calls into the Tcl interpreter. *)
Inductive Event :=
| AddressErased (object : Address)
| DeleteFunctionCalled (type : TypePtr) (object : Address)
| InstanceErased (name : string)
| TclCommandDeleted (name : string)
| InstanceSet (name : string) (r : Reference)
| AddressSet (object : Address) (name : string).

(** ** Computations on the table

    A member function is a state transformer that ends by returning,
    by throwing, or (in the model only) by running out of recursion
    budget.  The final table is kept in all three cases, since a C++
    exception does not roll back earlier writes. *)

Inductive Result (A : Type) :=
| Returned (a : A)
| Thrown (e : Exception)
| Exhausted.
Arguments Returned {A} a.
Arguments Thrown {A} e.
Arguments Exhausted {A}.

Record Outcome (A : Type) := MkOutcome {
  final : InstanceTable;
  trace : list Event;
  result : Result A
}.
Arguments MkOutcome {A} final trace result.
Arguments final {A} o.
Arguments trace {A} o.
Arguments result {A} o.

Definition M (A : Type) : Type := InstanceTable → Outcome A.

Definition ret {A} (a : A) : M A := fun t => MkOutcome t [] (Returned a).
Definition throw {A} (e : Exception) : M A := fun t => MkOutcome t [] (Thrown e).
Definition exhausted {A} : M A := fun t => MkOutcome t [] Exhausted.

Definition bind {A B} (c : M A) (k : A → M B) : M B := fun t =>
  let o := c t in
  match result o with
  | Returned a =>
      let o' := k a (final o) in
      MkOutcome (final o') (trace o ++ trace o') (result o')
  | Thrown e => MkOutcome (final o) (trace o) (Thrown e)
  | Exhausted => MkOutcome (final o) (trace o) Exhausted
  end.

Notation "'let*' x ':=' c 'in' k" := (bind c (fun x => k))
  (at level 10, x name, c at level 100, k at level 200).
Notation "c '>>' k" := (bind c (fun _ => k))
  (at level 65, right associativity).

Definition gets {A} (f : InstanceTable → A) : M A := fun t => ret (f t) t.

Definition set_InstanceMap (f : gmap string Reference → gmap string Reference)
    (t : InstanceTable) : InstanceTable :=
  {| m_InstanceMap := f (m_InstanceMap t);
     m_AddressToNameMap := m_AddressToNameMap t;
     m_DeleteFunctionMap := m_DeleteFunctionMap t;
     m_TempNameNumber := m_TempNameNumber t |}.

Definition set_AddressToNameMap (f : gmap Z string → gmap Z string)
    (t : InstanceTable) : InstanceTable :=
  {| m_InstanceMap := m_InstanceMap t;
     m_AddressToNameMap := f (m_AddressToNameMap t);
     m_DeleteFunctionMap := m_DeleteFunctionMap t;
     m_TempNameNumber := m_TempNameNumber t |}.

Definition set_DeleteFunctionMap
    (f : gmap Z (Z → list Z) → gmap Z (Z → list Z))
    (t : InstanceTable) : InstanceTable :=
  {| m_InstanceMap := m_InstanceMap t;
     m_AddressToNameMap := m_AddressToNameMap t;
     m_DeleteFunctionMap := f (m_DeleteFunctionMap t);
     m_TempNameNumber := m_TempNameNumber t |}.

Definition set_TempNameNumber (f : Z → Z) (t : InstanceTable) : InstanceTable :=
  {| m_InstanceMap := m_InstanceMap t;
     m_AddressToNameMap := m_AddressToNameMap t;
     m_DeleteFunctionMap := m_DeleteFunctionMap t;
     m_TempNameNumber := f (m_TempNameNumber t) |}.

(** The statements of the source that write a map or leave the table. *)

(** [m_AddressToNameMap.erase(object)] *)
Definition erase_address (object : Address) : M unit := fun t =>
  MkOutcome (set_AddressToNameMap (delete object) t)
            [AddressErased object] (Returned tt).

(** [m_InstanceMap.erase(name)] *)
Definition erase_instance (name : string) : M unit := fun t =>
  MkOutcome (set_InstanceMap (delete name) t)
            [InstanceErased name] (Returned tt).

(** [m_InstanceMap[name] = r] *)
Definition set_instance (name : string) (r : Reference) : M unit := fun t =>
  MkOutcome (set_InstanceMap (insert name r) t)
            [InstanceSet name r] (Returned tt).

(** [m_AddressToNameMap[object] = name] *)
Definition set_address (object : Address) (name : string) : M unit := fun t =>
  MkOutcome (set_AddressToNameMap (insert object name) t)
            [AddressSet object name] (Returned tt).

(** [Tcl_DeleteCommand(m_Interpreter, name.c_str())]: the interpreter is
    outside the table; the request is recorded. *)
Definition Tcl_DeleteCommand (name : string) : M unit := fun t =>
  MkOutcome t [TclCommandDeleted name] (Returned tt).

Fixpoint for_each {A} (body : A → M unit) (l : list A) : M unit :=
  match l with
  | [] => ret tt
  | x :: l' => body x >> for_each body l'
  end.

(** [m_DeleteFunctionMap[type](object)]: the call through the function
    pointer, during which the destructors notify [callback]. *)
Definition call_DeleteFunction (callback : Address → M unit)
    (type : TypePtr) (func : DeleteFunction) (object : Address) : M unit :=
  (fun t => MkOutcome t [DeleteFunctionCalled type object] (Returned tt)) >>
  for_each callback (func object).

(** ** The member functions *)

(** The constructor: empty maps, temporary number zero. *)
Definition InstanceTable_new : InstanceTable :=
  {| m_InstanceMap := ∅; m_AddressToNameMap := ∅;
     m_DeleteFunctionMap := ∅; m_TempNameNumber := 0 |}.

(** [m_InstanceMap.count(name) > 0] *)
Definition Exists (name : string) (t : InstanceTable) : bool :=
  match m_InstanceMap t !! name with Some _ => true | None => false end.

Definition CheckExists (name : string) : M unit := fun t =>
  if Exists name t then ret tt t
  else throw (UndefinedInstanceNameException name) t.

(** Reading [m_InstanceMap[name]] (or [find(name)->second]) right after
    [CheckExists(name)] has returned: the key is present and the read does
    not change the map.  The other branch is never taken after the check. *)
Definition read_instance (name : string) : M Reference := fun t =>
  match m_InstanceMap t !! name with
  | Some r => ret r t
  | None => throw (UndefinedInstanceNameException name) t
  end.

(** [DeleteCallBack] with the [DeleteObject] it calls left open, so that
    the two can be tied together by the recursion budget below. *)
Definition DeleteCallBack_with (delete_object : string → M unit)
    (object : Address) : M unit := fun t =>
  match m_AddressToNameMap t !! object with
  | Some name => delete_object name t
  | None => ret tt t
  end.

(** [DeleteObject].  The delete function may re-enter the table through
    [DeleteCallBack], which calls [DeleteObject] again; [fuel] bounds the
    depth of that nesting. *)
Fixpoint DeleteObject_fuel (fuel : nat) (name : string) : M unit :=
  match fuel with
  | O => exhausted
  | S fuel' =>
      CheckExists name >>
      let* r := read_instance name in
      let type := CvQualifiedType_GetType (Reference_GetReferencedType r) in
      let object := Reference_GetObject r in
      let* functions := gets m_DeleteFunctionMap in
      match functions !! type with
      | None => throw (UndefinedObjectTypeException type)
      | Some func =>
          erase_address object >>
          call_DeleteFunction
            (DeleteCallBack_with (DeleteObject_fuel fuel')) type func object >>
          erase_instance name >>
          Tcl_DeleteCommand name
      end
  end.

(** Every nested [DeleteObject] is entered through a reverse-map entry that
    it erases first, so the nesting is never deeper than the reverse map
    is large (see [DeleteObject_fuel_enough]). *)
Definition fuel_for (t : InstanceTable) : nat :=
  S (size (m_AddressToNameMap t)).

Definition DeleteObject (name : string) : M unit := fun t =>
  DeleteObject_fuel (fuel_for t) name t.

Definition DeleteCallBack (object : Address) : M unit :=
  DeleteCallBack_with DeleteObject object.

Definition SetObject (name : string) (object : Address)
    (type : CvQualifiedType) : M unit :=
  let* bound := gets (Exists name) in
  (if bound then DeleteObject name else ret tt) >>
  set_instance name {| Reference_GetObject := object;
                       Reference_GetReferencedType := type |} >>
  set_address object name.

Definition GetEntry (name : string) : M Reference :=
  CheckExists name >> read_instance name.

Definition GetObject (name : string) : M Address :=
  CheckExists name >>
  let* r := read_instance name in ret (Reference_GetObject r).

Definition GetType (name : string) : M CvQualifiedType :=
  CheckExists name >>
  let* r := read_instance name in ret (Reference_GetReferencedType r).

Definition SetDeleteFunction (type : TypePtr) (func : DeleteFunction) : M unit :=
  fun t => MkOutcome (set_DeleteFunctionMap (insert type func) t) [] (Returned tt).

(** *** Temporary names *)

(** Modelled from the spec: the declaration of [m_TempNameNumber] is in a
    header that is not among the sources at hand.  The counter is taken to
    be the [unsigned int] that the conversion [%x] of [sprintf] consumes,
    32 bits wide, so that incrementing it wraps around. *)
Definition UINT_BITS : Z := 32.
Definition UINT_MODULUS : Z := 2 ^ UINT_BITS.

(** [char tempName[15]] *)
Definition tempName_size : Z := 15.

Definition hex_digit (d : Z) : ascii :=
  match String.get (Z.to_nat d) "0123456789abcdef" with
  | Some c => c
  | None => "0"%char
  end.

(** The digits of [n] in radix 16, most significant first, with no leading
    zero; [fuel] bounds the number of digits after the first. *)
Fixpoint hex_fuel (fuel : nat) (n : Z) (acc : string) : string :=
  let acc' := String (hex_digit (n mod 16)) acc in
  match fuel with
  | O => acc'
  | S fuel' => if (n / 16 =? 0)%Z then acc' else hex_fuel fuel' (n / 16) acc'
  end.

(** The conversion [%x] applied to a non-negative value. *)
Definition sprintf_x (n : Z) : string :=
  hex_fuel (Z.to_nat (Z.log2 n)) n "".

Definition temp_prefix : string := "__temp".

(** [sprintf(tempName, "__temp%x", n)]: the characters produced. *)
Definition temp_name (n : Z) : string := temp_prefix ++ sprintf_x n.

(** [sprintf] stores the characters and a terminating NUL. *)
Definition sprintf_bytes_written (s : string) : Z :=
  Z.of_nat (String.length s) + 1.

(** Reading a numeral back; used to tell two numerals apart. *)
Definition digit_value (c : ascii) : Z :=
  let code := Z.of_N (N_of_ascii c) in
  if (code <=? 57)%Z then code - 48 else code - 87.

Fixpoint hex_value_from (v : Z) (s : string) : Z :=
  match s with
  | EmptyString => v
  | String c s' => hex_value_from (16 * v + digit_value c) s'
  end.

(** The characters that [%x] can produce. *)
Definition is_hex_digit (c : ascii) : bool :=
  existsb (Ascii.eqb c) (list_ascii_of_string "0123456789abcdef").

Fixpoint string_forallb (p : ascii → bool) (s : string) : bool :=
  match s with
  | EmptyString => true
  | String c s' => p c && string_forallb p s'
  end.

(** [m_TempNameNumber++] *)
Definition post_increment_TempNameNumber : M Z := fun t =>
  MkOutcome (set_TempNameNumber (fun n => (n + 1) mod UINT_MODULUS) t) []
            (Returned (m_TempNameNumber t)).

Definition CreateTemporary (object : Address) (type : CvQualifiedType)
    : M string :=
  let* n := post_increment_TempNameNumber in
  let name := temp_name n in
  SetObject name object type >>
  ret name.

(** [name.substr(0,6) == "__temp"] *)
Definition has_temp_prefix (name : string) : bool :=
  String.eqb (substring 0 6 name) temp_prefix.

Definition DeleteIfTemporary (name : string) : M unit :=
  CheckExists name >>
  if has_temp_prefix name then DeleteObject name else ret tt.

(** ** The consistency of the two maps *)

(** Every entry of the reverse map is backed by the forward map: the name
    it yields is bound, and bound to that very address. *)
Definition consistent (t : InstanceTable) : Prop :=
  ∀ (object : Z) (name : string),
    m_AddressToNameMap t !! object = Some name →
    ∃ type, m_InstanceMap t !! name =
              Some {| Reference_GetObject := object;
                      Reference_GetReferencedType := type |}.

(** What a run of destructions may do to the table: entries only go away,
    the delete functions and the counter stay, and a name keeps its entry
    unless the run erased it. *)
Record shrinks (t : InstanceTable) (tr : list Event) (t' : InstanceTable)
    : Prop := {
  shrinks_address : m_AddressToNameMap t' ⊆ m_AddressToNameMap t;
  shrinks_instance : m_InstanceMap t' ⊆ m_InstanceMap t;
  shrinks_function : m_DeleteFunctionMap t' = m_DeleteFunctionMap t;
  shrinks_number : m_TempNameNumber t' = m_TempNameNumber t;
  shrinks_kept : ∀ name, ¬ In (InstanceErased name) tr →
                 m_InstanceMap t' !! name = m_InstanceMap t !! name
}.

(** The events of destroying the instance [name] at address [object]. *)
Definition own_event (name : string) (object : Address) (e : Event) : Prop :=
  match e with
  | AddressErased object' | DeleteFunctionCalled _ object' => object' = object
  | InstanceErased name' | TclCommandDeleted name' => name' = name
  | InstanceSet _ _ | AddressSet _ _ => False
  end.

(** An event of destroying some instance that the reverse map knows. *)
Definition concerns (t : InstanceTable) (e : Event) : Prop :=
  ∃ object name,
    m_AddressToNameMap t !! object = Some name ∧ own_event name object e.

(** A run started by destruction notifications only destroys instances
    that the reverse map knew when the run began. *)
Definition notified (t : InstanceTable) (tr : list Event) : Prop :=
  ∀ e, In e tr → concerns t e.

Definition nested_ok (t : InstanceTable) (o : Outcome unit) : Prop :=
  consistent (final o) ∧ shrinks t (trace o) (final o) ∧ notified t (trace o).

(** Operations a client of the table can perform. *)
Inductive Operation :=
| OpSetObject (name : string) (object : Address) (type : CvQualifiedType)
| OpDeleteObject (name : string)
| OpCreateTemporary (object : Address) (type : CvQualifiedType)
| OpDeleteIfTemporary (name : string)
| OpDeleteCallBack (object : Address)
| OpSetDeleteFunction (type : TypePtr) (func : DeleteFunction).

Definition run (op : Operation) : M unit :=
  match op with
  | OpSetObject name object type => SetObject name object type
  | OpDeleteObject name => DeleteObject name
  | OpCreateTemporary object type => CreateTemporary object type >> ret tt
  | OpDeleteIfTemporary name => DeleteIfTemporary name
  | OpDeleteCallBack object => DeleteCallBack object
  | OpSetDeleteFunction type func => SetDeleteFunction type func
  end.

(** The tables a client can be left with: whatever an operation returns or
    throws, the table it leaves behind is the one the next operation sees. *)
Inductive reachable : InstanceTable → Prop :=
| reachable_new : reachable InstanceTable_new
| reachable_run op t : reachable t → reachable (final (run op t)).

(** How often a delete function is called on [object] in a trace. *)
Definition is_delete_of (object : Address) (e : Event) : bool :=
  match e with
  | DeleteFunctionCalled _ object' => bool_decide (object' = object)
  | _ => false
  end.

Definition deletions_of (object : Address) (tr : list Event) : nat :=
  length (List.filter (is_delete_of object) tr).

(** What one [DeleteObject] does, whatever its end: consistency is kept,
    entries only go away, and delete functions run on the object of [name]
    and on objects reached through the reverse map. *)
Definition DeleteObject_ok (name : string) (t : InstanceTable)
    (o : Outcome unit) : Prop :=
  consistent (final o) ∧ shrinks t (trace o) (final o) ∧
  ∀ e, In e (trace o) →
    concerns t e ∨
    ∃ r, m_InstanceMap t !! name = Some r ∧
         own_event name (Reference_GetObject r) e.

Definition within (n : nat) (t : InstanceTable) : Prop :=
  consistent t ∧ (size (m_AddressToNameMap t) ≤ n)%nat.

Definition bound_table (name : string) (object : Address)
    (type : CvQualifiedType) (t : InstanceTable) : InstanceTable :=
  set_AddressToNameMap (insert object name)
    (set_InstanceMap
       (insert name {| Reference_GetObject := object;
                       Reference_GetReferencedType := type |}) t).

Definition bound_events (name : string) (object : Address)
    (type : CvQualifiedType) : list Event :=
  [InstanceSet name {| Reference_GetObject := object;
                       Reference_GetReferencedType := type |};
   AddressSet object name].

(** ** Sample tables *)

Definition TypeX : CvQualifiedType :=
  {| CvQualifiedType_GetType := 100;
     CvQualifiedType_IsConst := false;
     CvQualifiedType_IsVolatile := false |}.

Definition TypeY : CvQualifiedType :=
  {| CvQualifiedType_GetType := 200;
     CvQualifiedType_IsConst := true;
     CvQualifiedType_IsVolatile := false |}.

(** A delete function whose destructor reports the object it destroys. *)
Definition freeX : DeleteFunction := fun object => [object].

Definition run_all (ops : list Operation) (t : InstanceTable) : InstanceTable :=
  fold_left (fun t op => final (run op t)) ops t.

(** [freeX] registered for [TypeX], nothing for [TypeY];
    "a" is of [TypeX] at 4096 and "y" of [TypeY] at 8192. *)
Definition sample_table : InstanceTable :=
  run_all [OpSetDeleteFunction 100 freeX;
           OpSetObject "a" 4096 TypeX;
           OpSetObject "y" 8192 TypeY] InstanceTable_new.

(** The same object bound under two names. *)
Definition shared_table : InstanceTable :=
  run_all [OpSetDeleteFunction 100 freeX;
           OpSetObject "a" 4096 TypeX;
           OpSetObject "b" 4096 TypeX] InstanceTable_new.

(** A temporary of [TypeX] at 4096 and "a" of [TypeX] at 8192. *)
Definition temporary_table : InstanceTable :=
  run_all [OpSetDeleteFunction 100 freeX;
           OpCreateTemporary 4096 TypeX;
           OpSetObject "a" 8192 TypeX] InstanceTable_new.

(** A delete function for an object at 4096 that owns a part at 8192: the
    destructor of the whole destroys the part, which reports itself. *)
Definition free_whole : DeleteFunction :=
  fun object => if (object =? 4096)%Z then [8192] else [].

(** "whole" at 4096 and its "part" at 8192, both of [TypeX]. *)
Definition nested_table : InstanceTable :=
  run_all [OpSetDeleteFunction 100 free_whole;
           OpSetObject "whole" 4096 TypeX;
           OpSetObject "part" 8192 TypeX] InstanceTable_new.

(** The same, with the part of a type that has no delete function. *)
Definition part_without_function_table : InstanceTable :=
  run_all [OpSetDeleteFunction 100 free_whole;
           OpSetObject "whole" 4096 TypeX;
           OpSetObject "part" 8192 TypeY] InstanceTable_new.

(** A fresh table whose counter has reached the last [unsigned int]. *)
Definition last_number_table : InstanceTable :=
  set_TempNameNumber (fun _ => 4294967295) InstanceTable_new.

(** ** The forward map seen from the reverse map *)

(** Every binding of the forward map has its reverse entry, except for the
    names in [P] (the instances whose destruction is under way). *)
Definition covered (P : string → Prop) (t : InstanceTable) : Prop :=
  ∀ name object type,
    m_InstanceMap t !! name =
      Some {| Reference_GetObject := object;
              Reference_GetReferencedType := type |} →
    P name ∨ m_AddressToNameMap t !! object = Some name.

Definition resolved (t : InstanceTable) : Prop := covered (fun _ => False) t.

(** The object is not tracked under another name than [name]. *)
Definition unshared (name : string) (object : Address) (t : InstanceTable)
    : Prop :=
  m_AddressToNameMap t !! object = None ∨
  m_AddressToNameMap t !! object = Some name.

(** An operation that does not set an object which another name holds. *)
Definition admissible (op : Operation) (t : InstanceTable) : Prop :=
  match op with
  | OpSetObject name object _ => unshared name object t
  | OpCreateTemporary object _ =>
      unshared (temp_name (m_TempNameNumber t)) object t
  | _ => True
  end.

(** An operation that returned, or that left both maps as they were. *)
Definition settled (op : Operation) (t : InstanceTable) : Prop :=
  result (run op t) = Returned tt ∨
  (m_InstanceMap (final (run op t)) = m_InstanceMap t ∧
   m_AddressToNameMap (final (run op t)) = m_AddressToNameMap t).

(** The tables reached by admissible operations that settle. *)
Inductive reachable_unshared : InstanceTable → Prop :=
| reachable_unshared_new : reachable_unshared InstanceTable_new
| reachable_unshared_run op t :
    reachable_unshared t → admissible op t → settled op t →
    reachable_unshared (final (run op t)).

(** ** Reading a trace *)

Definition is_call (e : Event) : bool :=
  match e with DeleteFunctionCalled _ _ => true | _ => false end.

Definition is_command_deletion (e : Event) : bool :=
  match e with TclCommandDeleted _ => true | _ => false end.

Definition count_events (p : Event → bool) (tr : list Event) : nat :=
  length (List.filter p tr).

(** Whether [e] may come right after [prev]: a call of a delete function
    needs the erase of the reverse entry of the same object right before
    it, a command deletion the erase of the forward entry of that name. *)
Definition guards (prev : option Event) (e : Event) : bool :=
  match e with
  | DeleteFunctionCalled _ object =>
      match prev with
      | Some (AddressErased object') => bool_decide (object' = object)
      | _ => false
      end
  | TclCommandDeleted name =>
      match prev with
      | Some (InstanceErased name') => bool_decide (name' = name)
      | _ => false
      end
  | _ => true
  end.

Fixpoint in_order (prev : option Event) (tr : list Event) : bool :=
  match tr with
  | [] => true
  | e :: tr' => guards prev e && in_order (Some e) tr'
  end.

(** What holds of the trace and the end of every run of the table. *)
Definition well_formed (tr : list Event) (r : Result unit) : Prop :=
  in_order None tr = true ∧
  (count_events is_command_deletion tr ≤ count_events is_call tr)%nat ∧
  (r = Returned tt →
   count_events is_command_deletion tr = count_events is_call tr).

(** A run never reports an instance name as undefined. *)
Definition names_defined (r : Result unit) : Prop :=
  ∀ name, r ≠ Thrown (UndefinedInstanceNameException name).

(** "__temp0" taken by an instance of [TypeY], which has no delete
    function, before any temporary was created. *)
Definition occupied_table : InstanceTable :=
  run_all [OpSetDeleteFunction 100 freeX;
           OpSetObject "__temp0" 8192 TypeY] InstanceTable_new.

(** The same with an occupant of [TypeX], which has one. *)
Definition occupied_deletable_table : InstanceTable :=
  run_all [OpSetDeleteFunction 100 freeX;
           OpSetObject "__temp0" 8192 TypeX] InstanceTable_new.

(** ** Proof steps used throughout *)

Ltac split3 := split; [| split].

(** A computation that left the table alone and did nothing visible. *)
Ltac trivial_ok :=
  split3; cbn;
  [ assumption
  | split; auto
  | intros ? [] ].

(** ** Unfolding [DeleteObject] *)

Lemma DeleteObject_fuel_unbound fuel name t :
  m_InstanceMap t !! name = None →
  DeleteObject_fuel (S fuel) name t =
    MkOutcome t [] (Thrown (UndefinedInstanceNameException name)).
Proof.
  intros Hn. cbn. unfold bind, CheckExists, Exists. rewrite Hn. reflexivity.
Qed.

Lemma DeleteObject_fuel_no_function fuel name t r :
  m_InstanceMap t !! name = Some r →
  m_DeleteFunctionMap t
    !! CvQualifiedType_GetType (Reference_GetReferencedType r) = None →
  DeleteObject_fuel (S fuel) name t =
    MkOutcome t []
      (Thrown (UndefinedObjectTypeException
                 (CvQualifiedType_GetType (Reference_GetReferencedType r)))).
Proof.
  intros Hn Hf. cbn. unfold bind, CheckExists, Exists, read_instance, gets.
  rewrite Hn. cbn. rewrite Hn. cbn. rewrite Hf. reflexivity.
Qed.

Lemma DeleteObject_fuel_function fuel name t r func :
  m_InstanceMap t !! name = Some r →
  m_DeleteFunctionMap t
    !! CvQualifiedType_GetType (Reference_GetReferencedType r) = Some func →
  DeleteObject_fuel (S fuel) name t =
    let object := Reference_GetObject r in
    let type := CvQualifiedType_GetType (Reference_GetReferencedType r) in
    let o := for_each (DeleteCallBack_with (DeleteObject_fuel fuel))
               (func object) (set_AddressToNameMap (delete object) t) in
    match result o with
    | Returned _ =>
        MkOutcome (set_InstanceMap (delete name) (final o))
          (AddressErased object :: DeleteFunctionCalled type object ::
             trace o ++ [InstanceErased name; TclCommandDeleted name])
          (Returned tt)
    | Thrown e =>
        MkOutcome (final o)
          (AddressErased object :: DeleteFunctionCalled type object :: trace o)
          (Thrown e)
    | Exhausted =>
        MkOutcome (final o)
          (AddressErased object :: DeleteFunctionCalled type object :: trace o)
          Exhausted
    end.
Proof.
  intros Hn Hf. cbn.
  unfold bind, CheckExists, Exists, read_instance, gets, call_DeleteFunction.
  rewrite Hn. cbn. rewrite Hn. cbn. rewrite Hf. cbn. unfold bind. cbn.
  destruct (result (for_each _ _ _)); cbn; try reflexivity.
Qed.

Lemma DeleteObject_fuel_O name t :
  DeleteObject_fuel O name t = MkOutcome t [] Exhausted.
Proof. reflexivity. Qed.

(** From here on the member functions are unfolded by the equations above. *)
Arguments DeleteObject_fuel : simpl never.
Arguments DeleteObject : simpl never.
Arguments SetObject : simpl never.
Arguments deletions_of : simpl never.

Lemma for_each_cons {A} (body : A → M unit) x l t :
  for_each body (x :: l) t =
    let o := body x t in
    match result o with
    | Returned _ =>
        let o' := for_each body l (final o) in
        MkOutcome (final o') (trace o ++ trace o') (result o')
    | Thrown e => MkOutcome (final o) (trace o) (Thrown e)
    | Exhausted => MkOutcome (final o) (trace o) Exhausted
    end.
Proof. reflexivity. Qed.

(** ** Destruction keeps the maps consistent *)

Lemma shrinks_refl t : shrinks t [] t.
Proof. split; auto. Qed.

Lemma shrinks_trans t tr1 t1 tr2 t2 :
  shrinks t tr1 t1 → shrinks t1 tr2 t2 → shrinks t (tr1 ++ tr2) t2.
Proof.
  intros [Ha1 Hi1 Hf1 Hn1 Hk1] [Ha2 Hi2 Hf2 Hn2 Hk2]. split.
  - etrans; eauto.
  - etrans; eauto.
  - congruence.
  - congruence.
  - intros name Hnot. rewrite Hk2, Hk1; auto.
    + intros Hin. apply Hnot, in_or_app. auto.
    + intros Hin. apply Hnot, in_or_app. auto.
Qed.

Lemma notified_app t tr1 t1 tr2 :
  notified t tr1 → m_AddressToNameMap t1 ⊆ m_AddressToNameMap t →
  notified t1 tr2 → notified t (tr1 ++ tr2).
Proof.
  intros H1 Hsub H2 e [Hin|Hin]%in_app_or.
  - eauto.
  - destruct (H2 _ Hin) as (object & name & Hlook & Hown).
    exists object, name. split; [|exact Hown].
    eapply lookup_weaken; eauto.
Qed.

Lemma nested_ok_seq t (o1 o2 : Outcome unit) (r : Result unit) :
  nested_ok t o1 → nested_ok (final o1) o2 →
  nested_ok t (MkOutcome (final o2) (trace o1 ++ trace o2) r).
Proof.
  intros (Hc1 & Hs1 & Hn1) (Hc2 & Hs2 & Hn2). split3; cbn.
  - exact Hc2.
  - eapply shrinks_trans; eauto.
  - apply (notified_app t (trace o1) (final o1));
      [exact Hn1 | apply Hs1 | exact Hn2].
Qed.

Lemma nested_ok_stop t (o : Outcome unit) (r : Result unit) :
  nested_ok t o → nested_ok t (MkOutcome (final o) (trace o) r).
Proof. intros H. exact H. Qed.

Lemma for_each_nested_ok {A} (body : A → M unit) (l : list A) :
  (∀ x t, consistent t → nested_ok t (body x t)) →
  ∀ t, consistent t → nested_ok t (for_each body l t).
Proof.
  intros Hbody. induction l as [|x l IH]; intros t Ht.
  - trivial_ok.
  - rewrite for_each_cons. cbn zeta.
    pose proof (Hbody x t Ht) as Hx.
    destruct (result (body x t)) as [u|e|].
    + apply nested_ok_seq; auto. apply IH, Hx.
    + apply nested_ok_stop, Hx.
    + apply nested_ok_stop, Hx.
Qed.

Lemma consistent_erase_address object t :
  consistent t → consistent (set_AddressToNameMap (delete object) t).
Proof.
  intros Ht a n Hlook. cbn in *.
  apply (Ht a n). eapply lookup_weaken; [exact Hlook | apply delete_subseteq].
Qed.

Lemma shrinks_erase_address object t tr :
  shrinks t tr (set_AddressToNameMap (delete object) t).
Proof. split; cbn; auto. apply delete_subseteq. Qed.

Lemma DeleteCallBack_with_nested_ok (del : string → M unit) :
  (∀ name t, consistent t → DeleteObject_ok name t (del name t)) →
  ∀ object t, consistent t → nested_ok t (DeleteCallBack_with del object t).
Proof.
  intros Hdel object t Ht. unfold DeleteCallBack_with.
  destruct (m_AddressToNameMap t !! object) as [name|] eqn:Hlook.
  - destruct (Hdel name t Ht) as (Hc & Hs & Hcalls). split3; auto.
    intros e Hin.
    destruct (Hcalls _ Hin) as [Hsome | (r & Hr & Hown)]; auto.
    destruct (Ht _ _ Hlook) as [ty Hty].
    rewrite Hty in Hr. injection Hr as <-. cbn in Hown.
    exists object, name. auto.
  - trivial_ok.
Qed.

Lemma DeleteObject_fuel_ok fuel :
  ∀ name t, consistent t → DeleteObject_ok name t (DeleteObject_fuel fuel name t).
Proof.
  induction fuel as [|fuel IH]; intros name t Ht.
  - trivial_ok.
  - destruct (m_InstanceMap t !! name) as [r|] eqn:Hname.
    2:{ rewrite DeleteObject_fuel_unbound by assumption.
        trivial_ok. }
    destruct (m_DeleteFunctionMap t
                !! CvQualifiedType_GetType (Reference_GetReferencedType r))
      as [func|] eqn:Hfunc.
    2:{ rewrite (DeleteObject_fuel_no_function _ _ _ _ Hname Hfunc).
        trivial_ok. }
    rewrite (DeleteObject_fuel_function _ _ _ _ _ Hname Hfunc). cbn zeta.
    set (object := Reference_GetObject r).
    set (type := CvQualifiedType_GetType (Reference_GetReferencedType r)).
    set (t1 := set_AddressToNameMap (delete object) t).
    pose proof (for_each_nested_ok _ (func object)
                  (DeleteCallBack_with_nested_ok _ IH) t1
                  (consistent_erase_address object t Ht)) as (Hc & Hs & Hn).
    set (o := for_each _ _ t1) in *.
    assert (Hs1 : shrinks t [AddressErased object;
                             DeleteFunctionCalled type object] t1)
      by apply shrinks_erase_address.
    assert (Hcalls : ∀ e,
      In e (AddressErased object :: DeleteFunctionCalled type object ::
              trace o ++ [InstanceErased name; TclCommandDeleted name]) →
      concerns t e ∨
      ∃ r', m_InstanceMap t !! name = Some r' ∧
            own_event name (Reference_GetObject r') e).
    { intros e [<-|[<-|Hin]]; [right; exists r; cbn; auto ..|].
      apply in_app_or in Hin as [Hin|[<-|[<-|[]]]];
        [|right; exists r; cbn; auto ..].
      left. destruct (Hn _ Hin) as (object' & n & Hlook & Hown).
      exists object', n. split; [|exact Hown].
      eapply lookup_weaken; [exact Hlook | apply delete_subseteq]. }
    pose proof (shrinks_trans _ _ _ _ _ Hs1 Hs) as Hst.
    destruct (result o) as [u|e|].
    + split3; [| split |]; unfold set_InstanceMap; cbn.
      * intros a n Hlook. cbn in Hlook.
        destruct (Hc a n Hlook) as [ty Hty]. exists ty. cbn.
        rewrite lookup_delete_ne; auto.
        intros <-.
        pose proof (lookup_weaken _ _ _ _ Hty (shrinks_instance _ _ _ Hst)) as Hr.
        rewrite Hname in Hr. injection Hr as Hr. subst r. cbn in *.
        pose proof (lookup_weaken _ _ _ _ Hlook (shrinks_address _ _ _ Hs)) as Hd.
        subst t1. cbn in Hd. subst object.
        rewrite lookup_delete_eq in Hd. discriminate.
      * apply Hst.
      * etrans; [apply delete_subseteq | apply Hst].
      * apply Hst.
      * apply Hst.
      * intros n Hnot.
        assert (n ≠ name).
        { intros ->. apply Hnot. right. right. apply in_or_app. right.
          left. reflexivity. }
        rewrite lookup_delete_ne by auto.
        apply (shrinks_kept _ _ _ Hst).
        intros Hin. apply Hnot. cbn in Hin. destruct Hin as [?|[?|Hin]];
          try discriminate.
        right. right. apply in_or_app. auto.
      * exact Hcalls.
    + split3; cbn; auto. intros ev Hin. apply Hcalls.
      destruct Hin as [?|[?|Hin]]; [left; auto | right; left; auto |].
      right. right. apply in_or_app. auto.
    + split3; cbn; auto. intros ev Hin. apply Hcalls.
      destruct Hin as [?|[?|Hin]]; [left; auto | right; left; auto |].
      right. right. apply in_or_app. auto.
Qed.

(** ** The recursion budget is never the reason a call ends *)

Lemma for_each_not_exhausted {A} (body : A → M unit) (I : InstanceTable → Prop)
    (l : list A) :
  (∀ x t, I t → result (body x t) ≠ Exhausted ∧ I (final (body x t))) →
  ∀ t, I t → result (for_each body l t) ≠ Exhausted.
Proof.
  intros Hbody. induction l as [|x l IH]; intros t Ht.
  - discriminate.
  - rewrite for_each_cons. cbn zeta.
    destruct (Hbody x t Ht) as [Hres Hfin].
    destruct (result (body x t)) as [u|e|]; cbn; try discriminate; auto.
Qed.

Lemma within_nested_ok n t (o : Outcome unit) :
  within n t → nested_ok t o → within n (final o).
Proof.
  intros [_ Hsize] (Hc & Hs & _). split; [exact Hc|].
  pose proof (map_subseteq_size _ _ (shrinks_address _ _ _ Hs)). lia.
Qed.

Lemma DeleteCallBack_fuel_enough n :
  ∀ object t, within n t →
    result (DeleteCallBack_with (DeleteObject_fuel n) object t) ≠ Exhausted.
Proof.
  induction n as [|n IH]; intros object t [Ht Hsize]; unfold DeleteCallBack_with;
    destruct (m_AddressToNameMap t !! object) as [name|] eqn:Hlook;
    try discriminate.
  - assert (m_AddressToNameMap t = ∅) as Hempty
      by (apply map_size_empty_inv; lia).
    rewrite Hempty, lookup_empty in Hlook. discriminate.
  - destruct (Ht _ _ Hlook) as [type Hname].
    destruct (m_DeleteFunctionMap t !! CvQualifiedType_GetType type)
      as [func|] eqn:Hfunc.
    2:{ rewrite (DeleteObject_fuel_no_function _ _ _ _ Hname Hfunc).
        discriminate. }
    rewrite (DeleteObject_fuel_function _ _ _ _ _ Hname Hfunc). cbn.
    assert (Hin : within n (set_AddressToNameMap (delete object) t)).
    { split; [apply consistent_erase_address, Ht|]. cbn.
      rewrite map_size_delete_Some by eauto. lia. }
    pose proof (for_each_not_exhausted
                  (DeleteCallBack_with (DeleteObject_fuel n)) (within n)
                  (func object)) as Hloop.
    match goal with |- context [for_each ?b ?l ?s] =>
      specialize (Hloop ltac:(intros x s' Hs'; split;
        [ apply IH, Hs'
        | apply (within_nested_ok _ _ _ Hs'),
            (DeleteCallBack_with_nested_ok _ (DeleteObject_fuel_ok n)), Hs' ])
        s Hin);
      destruct (result (for_each b l s)) as [u|e|]
    end; cbn; congruence.
Qed.

Lemma DeleteObject_fuel_enough fuel name t :
  consistent t → (size (m_AddressToNameMap t) < fuel)%nat →
  result (DeleteObject_fuel fuel name t) ≠ Exhausted.
Proof.
  intros Ht Hsize. destruct fuel as [|n]; [lia|].
  destruct (m_InstanceMap t !! name) as [r|] eqn:Hname.
  2:{ rewrite DeleteObject_fuel_unbound by assumption. discriminate. }
  destruct (m_DeleteFunctionMap t
              !! CvQualifiedType_GetType (Reference_GetReferencedType r))
    as [func|] eqn:Hfunc.
  2:{ rewrite (DeleteObject_fuel_no_function _ _ _ _ Hname Hfunc).
      discriminate. }
  rewrite (DeleteObject_fuel_function _ _ _ _ _ Hname Hfunc). cbn zeta.
  set (t1 := set_AddressToNameMap _ t).
  assert (Hin : within n t1).
  { split; [apply consistent_erase_address, Ht|]. subst t1. cbn.
    pose proof (map_subseteq_size _ _
      (delete_subseteq (m_AddressToNameMap t) (Reference_GetObject r))). lia. }
  pose proof (for_each_not_exhausted
                (DeleteCallBack_with (DeleteObject_fuel n)) (within n)
                (func (Reference_GetObject r))
                ltac:(intros x s' Hs'; split;
                  [ apply DeleteCallBack_fuel_enough, Hs'
                  | apply (within_nested_ok _ _ _ Hs'),
                      (DeleteCallBack_with_nested_ok _ (DeleteObject_fuel_ok n)),
                      Hs' ])
                t1 Hin) as Hloop.
  destruct (result (for_each _ _ t1)) as [u|e|]; cbn; congruence.
Qed.

(** More budget than needed changes nothing. *)
Lemma for_each_agree {A} (body1 body2 : A → M unit) (l : list A) :
  (∀ x t, result (body1 x t) ≠ Exhausted → body2 x t = body1 x t) →
  ∀ t, result (for_each body1 l t) ≠ Exhausted →
       for_each body2 l t = for_each body1 l t.
Proof.
  intros Hbody. induction l as [|x l IH]; intros t Hres; [reflexivity|].
  rewrite !for_each_cons in *. cbn zeta in *.
  assert (Hx : result (body1 x t) ≠ Exhausted).
  { intros Heq. rewrite Heq in Hres. cbn in Hres. congruence. }
  rewrite (Hbody x t Hx).
  destruct (result (body1 x t)) as [u|e|]; try reflexivity.
  cbn in Hres. rewrite (IH _ Hres). reflexivity.
Qed.

Lemma DeleteObject_fuel_more n :
  ∀ name t, result (DeleteObject_fuel n name t) ≠ Exhausted →
  ∀ m, (n ≤ m)%nat → DeleteObject_fuel m name t = DeleteObject_fuel n name t.
Proof.
  induction n as [|n IH]; intros name t Hres m Hle.
  - rewrite DeleteObject_fuel_O in Hres. cbn in Hres. congruence.
  - destruct m as [|m]; [lia|].
    destruct (m_InstanceMap t !! name) as [r|] eqn:Hname.
    2:{ rewrite !DeleteObject_fuel_unbound by assumption. reflexivity. }
    destruct (m_DeleteFunctionMap t
                !! CvQualifiedType_GetType (Reference_GetReferencedType r))
      as [func|] eqn:Hfunc.
    2:{ rewrite !(DeleteObject_fuel_no_function _ _ _ _ Hname Hfunc).
        reflexivity. }
    rewrite (DeleteObject_fuel_function _ _ _ _ _ Hname Hfunc) in Hres.
    rewrite !(DeleteObject_fuel_function _ _ _ _ _ Hname Hfunc).
    cbn zeta in *.
    rewrite (for_each_agree (DeleteCallBack_with (DeleteObject_fuel n))
                            (DeleteCallBack_with (DeleteObject_fuel m))).
    + reflexivity.
    + intros x s Hx. unfold DeleteCallBack_with in *.
      destruct (m_AddressToNameMap s !! x); [|reflexivity].
      apply IH; [exact Hx | lia].
    + intros Heq. rewrite Heq in Hres. cbn in Hres. congruence.
Qed.

Lemma DeleteObject_not_exhausted name t :
  consistent t → result (DeleteObject name t) ≠ Exhausted.
Proof.
  intros Ht. apply DeleteObject_fuel_enough; [exact Ht|].
  unfold fuel_for. lia.
Qed.

Lemma DeleteObject_any_fuel name t fuel :
  consistent t → (fuel_for t ≤ fuel)%nat →
  DeleteObject_fuel fuel name t = DeleteObject name t.
Proof.
  intros Ht Hle. apply DeleteObject_fuel_more; [|exact Hle].
  apply DeleteObject_not_exhausted, Ht.
Qed.

(** ** Unfolding the other member functions *)

Lemma SetObject_unbound name object type t :
  m_InstanceMap t !! name = None →
  SetObject name object type t =
    MkOutcome (bound_table name object type t)
              (bound_events name object type) (Returned tt).
Proof.
  intros Hn. unfold SetObject, bind, gets, Exists. cbn. rewrite Hn. reflexivity.
Qed.

Lemma SetObject_bound name object type t r :
  m_InstanceMap t !! name = Some r →
  SetObject name object type t =
    let o := DeleteObject name t in
    match result o with
    | Returned _ =>
        MkOutcome (bound_table name object type (final o))
                  (trace o ++ bound_events name object type) (Returned tt)
    | Thrown e => MkOutcome (final o) (trace o) (Thrown e)
    | Exhausted => MkOutcome (final o) (trace o) Exhausted
    end.
Proof.
  intros Hn. unfold SetObject, bind, gets, Exists. cbn. rewrite Hn. cbn.
  destruct (result (DeleteObject name t)); reflexivity.
Qed.

Lemma DeleteIfTemporary_unfold name t :
  DeleteIfTemporary name t =
    match m_InstanceMap t !! name with
    | None => MkOutcome t [] (Thrown (UndefinedInstanceNameException name))
    | Some _ =>
        if has_temp_prefix name then DeleteObject name t
        else MkOutcome t [] (Returned tt)
    end.
Proof.
  unfold DeleteIfTemporary, bind, CheckExists, Exists.
  destruct (m_InstanceMap t !! name); cbn; [|reflexivity].
  destruct (has_temp_prefix name); cbn; [|reflexivity].
  destruct (DeleteObject name t) as [f tr []]; reflexivity.
Qed.

Lemma CreateTemporary_unfold object type t :
  CreateTemporary object type t =
    let name := temp_name (m_TempNameNumber t) in
    let o := SetObject name object type
               (set_TempNameNumber (fun n => (n + 1) mod UINT_MODULUS) t) in
    MkOutcome (final o) (trace o)
      match result o with
      | Returned _ => Returned name
      | Thrown e => Thrown e
      | Exhausted => Exhausted
      end.
Proof.
  unfold CreateTemporary, bind, post_increment_TempNameNumber. cbn.
  destruct (SetObject _ _ _ _) as [f tr []]; cbn; rewrite ?app_nil_r;
    reflexivity.
Qed.

(** A [DeleteObject] that returns has found the name bound and a delete
    function registered, and has gone through all four steps. *)
Lemma DeleteObject_fuel_returned fuel name t u :
  result (DeleteObject_fuel fuel name t) = Returned u →
  ∃ fuel' r func,
    fuel = S fuel' ∧
    m_InstanceMap t !! name = Some r ∧
    m_DeleteFunctionMap t
      !! CvQualifiedType_GetType (Reference_GetReferencedType r) = Some func ∧
    let object := Reference_GetObject r in
    let type := CvQualifiedType_GetType (Reference_GetReferencedType r) in
    let o := for_each (DeleteCallBack_with (DeleteObject_fuel fuel'))
               (func object) (set_AddressToNameMap (delete object) t) in
    (∃ u', result o = Returned u') ∧
    DeleteObject_fuel fuel name t =
      MkOutcome (set_InstanceMap (delete name) (final o))
        (AddressErased object :: DeleteFunctionCalled type object ::
           trace o ++ [InstanceErased name; TclCommandDeleted name])
        (Returned tt).
Proof.
  intros Hres. destruct fuel as [|fuel']; [discriminate|].
  destruct (m_InstanceMap t !! name) as [r|] eqn:Hname.
  2:{ rewrite DeleteObject_fuel_unbound in Hres by assumption. discriminate. }
  destruct (m_DeleteFunctionMap t
              !! CvQualifiedType_GetType (Reference_GetReferencedType r))
    as [func|] eqn:Hfunc.
  2:{ rewrite (DeleteObject_fuel_no_function _ _ _ _ Hname Hfunc) in Hres.
      discriminate. }
  exists fuel', r, func. split; [reflexivity|]. split; [reflexivity|].
  split; [exact Hfunc|]. cbn zeta.
  rewrite (DeleteObject_fuel_function _ _ _ _ _ Hname Hfunc) in *.
  cbn zeta in *.
  destruct (result (for_each _ _ _)) as [u'|e|]; try discriminate.
  split; [eauto | reflexivity].
Qed.

(** ** Every member function keeps the maps consistent *)

Lemma consistent_new : consistent InstanceTable_new.
Proof. intros object name H. cbn in H. rewrite lookup_empty in H. discriminate. Qed.

Lemma consistent_bound_table name object type t :
  consistent t → m_InstanceMap t !! name = None →
  consistent (bound_table name object type t).
Proof.
  intros Ht Hname a n Hlook. cbn in *.
  destruct (decide (object = a)) as [<-|Hne].
  - rewrite lookup_insert_eq in Hlook. injection Hlook as <-.
    exists type. apply lookup_insert_eq.
  - rewrite lookup_insert_ne in Hlook by assumption.
    destruct (Ht _ _ Hlook) as [ty Hty]. exists ty.
    rewrite lookup_insert_ne; [exact Hty|]. congruence.
Qed.

Lemma consistent_set_TempNameNumber f t :
  consistent t → consistent (set_TempNameNumber f t).
Proof. intros Ht. exact Ht. Qed.

Lemma consistent_set_DeleteFunctionMap f t :
  consistent t → consistent (set_DeleteFunctionMap f t).
Proof. intros Ht. exact Ht. Qed.

Lemma DeleteObject_consistent name t :
  consistent t → consistent (final (DeleteObject name t)).
Proof. intros Ht. apply (DeleteObject_fuel_ok _ name t Ht). Qed.

Lemma DeleteObject_returned_unbound name t u :
  result (DeleteObject name t) = Returned u →
  m_InstanceMap (final (DeleteObject name t)) !! name = None.
Proof.
  intros Hres. unfold DeleteObject in *.
  destruct (DeleteObject_fuel_returned _ _ _ _ Hres)
    as (fuel' & r & func & _ & _ & _ & _ & ->).
  cbn. apply lookup_delete_eq.
Qed.

Lemma SetObject_consistent name object type t :
  consistent t → consistent (final (SetObject name object type t)).
Proof.
  intros Ht. destruct (m_InstanceMap t !! name) as [r|] eqn:Hname.
  - rewrite (SetObject_bound _ _ _ _ _ Hname). cbn zeta.
    pose proof (DeleteObject_consistent name t Ht) as Hc.
    pose proof (DeleteObject_returned_unbound name t) as Hu.
    destruct (result (DeleteObject name t)) as [u|e|]; cbn; auto.
    apply consistent_bound_table; eauto.
  - rewrite (SetObject_unbound _ _ _ _ Hname). cbn.
    apply consistent_bound_table; auto.
Qed.

Lemma DeleteCallBack_nested_ok object t :
  consistent t → nested_ok t (DeleteCallBack object t).
Proof.
  apply DeleteCallBack_with_nested_ok.
  intros name s Hs. apply DeleteObject_fuel_ok, Hs.
Qed.

Lemma run_consistent op t : consistent t → consistent (final (run op t)).
Proof.
  intros Ht. destruct op as [name object type|name|object type|name|object|type func];
    cbn [run].
  - apply SetObject_consistent, Ht.
  - apply DeleteObject_consistent, Ht.
  - unfold bind. rewrite CreateTemporary_unfold. cbn.
    pose proof (SetObject_consistent
      (temp_name (m_TempNameNumber t)) object type _
      (consistent_set_TempNameNumber (fun n => (n + 1) mod UINT_MODULUS) t Ht)).
    destruct (result (SetObject _ _ _ _)); cbn; assumption.
  - rewrite DeleteIfTemporary_unfold.
    destruct (m_InstanceMap t !! name); [|exact Ht].
    destruct (has_temp_prefix name); [|exact Ht].
    apply DeleteObject_consistent, Ht.
  - apply (DeleteCallBack_nested_ok object t Ht).
  - exact Ht.
Qed.

Lemma reachable_consistent t : reachable t → consistent t.
Proof.
  induction 1 as [|op t _ IH]; [apply consistent_new | apply run_consistent, IH].
Qed.

(** ** Temporary names *)

Lemma string_length_app (s1 s2 : string) :
  String.length (s1 ++ s2) = (String.length s1 + String.length s2)%nat.
Proof. induction s1 as [|c s1 IH]; simpl; [reflexivity | now rewrite IH]. Qed.

Lemma string_app_assoc (s1 s2 s3 : string) :
  (s1 ++ s2) ++ s3 = s1 ++ (s2 ++ s3).
Proof.
  induction s1 as [|c s1 IH]; [reflexivity|].
  change (String c ((s1 ++ s2) ++ s3) = String c (s1 ++ (s2 ++ s3))).
  now rewrite IH.
Qed.

Lemma hex_fuel_length k :
  ∀ fuel n acc, 0 ≤ n < 16 ^ Z.of_nat (S k) →
    (String.length (hex_fuel fuel n acc) ≤ S k + String.length acc)%nat.
Proof.
  induction k as [|k IH]; intros fuel n acc Hn.
  - assert (n / 16 = 0) as Hq by (apply Z.div_small; cbn in Hn; lia).
    destruct fuel; cbn [hex_fuel]; rewrite ?Hq; cbn; lia.
  - destruct fuel as [|fuel]; cbn [hex_fuel]; [cbn; lia|].
    destruct (n / 16 =? 0)%Z; [cbn; lia|].
    assert (0 ≤ n / 16 < 16 ^ Z.of_nat (S k)) as Hq.
    { split; [apply Z.div_pos; lia|].
      apply Z.div_lt_upper_bound; [lia|].
      replace (Z.of_nat (S (S k))) with (Z.succ (Z.of_nat (S k))) in Hn by lia.
      rewrite Z.pow_succ_r in Hn by lia. lia. }
    specialize (IH fuel (n / 16) (String (hex_digit (n mod 16)) acc) Hq).
    cbn [String.length] in IH. lia.
Qed.

Lemma sprintf_x_length n :
  0 ≤ n < UINT_MODULUS → (String.length (sprintf_x n) ≤ 8)%nat.
Proof.
  intros Hn. unfold sprintf_x.
  pose proof (hex_fuel_length 7 (Z.to_nat (Z.log2 n)) n "" Hn) as H.
  cbn [String.length] in H. lia.
Qed.

Lemma digit_value_hex_digit d : 0 ≤ d < 16 → digit_value (hex_digit d) = d.
Proof.
  intros Hd.
  assert (d = 0 ∨ d = 1 ∨ d = 2 ∨ d = 3 ∨ d = 4 ∨ d = 5 ∨ d = 6 ∨ d = 7 ∨
          d = 8 ∨ d = 9 ∨ d = 10 ∨ d = 11 ∨ d = 12 ∨ d = 13 ∨ d = 14 ∨
          d = 15) as Hcases by lia.
  repeat (destruct Hcases as [->|Hcases]; [reflexivity|]).
  subst d. reflexivity.
Qed.

Lemma hex_fuel_acc fuel :
  ∀ n acc, hex_fuel fuel n acc = hex_fuel fuel n "" ++ acc.
Proof.
  induction fuel as [|fuel IH]; intros n acc; cbn [hex_fuel]; [reflexivity|].
  destruct (n / 16 =? 0)%Z; [reflexivity|].
  rewrite (IH _ (String _ acc)), (IH _ (String _ "")).
  now rewrite string_app_assoc.
Qed.

Lemma hex_value_from_app s1 :
  ∀ v s2, hex_value_from v (s1 ++ s2) = hex_value_from (hex_value_from v s1) s2.
Proof. induction s1 as [|c s1 IH]; intros v s2; simpl; [reflexivity | apply IH]. Qed.

Lemma hex_value_hex_fuel fuel :
  ∀ n, 0 ≤ n < 16 ^ Z.of_nat (S fuel) →
       hex_value_from 0 (hex_fuel fuel n "") = n.
Proof.
  induction fuel as [|fuel IH]; intros n Hn.
  - cbn [hex_fuel hex_value_from].
    rewrite digit_value_hex_digit by (apply Z.mod_pos_bound; lia).
    rewrite Z.mod_small by (cbn in Hn; lia). lia.
  - cbn [hex_fuel]. destruct (n / 16 =? 0)%Z eqn:Hq.
    + apply Z.eqb_eq in Hq. cbn [hex_value_from].
      rewrite digit_value_hex_digit by (apply Z.mod_pos_bound; lia).
      pose proof (Z.div_mod n 16 ltac:(lia)). lia.
    + rewrite hex_fuel_acc, hex_value_from_app. cbn [hex_value_from].
      rewrite digit_value_hex_digit by (apply Z.mod_pos_bound; lia).
      rewrite IH.
      * pose proof (Z.div_mod n 16 ltac:(lia)). lia.
      * split; [apply Z.div_pos; lia|].
        apply Z.div_lt_upper_bound; [lia|].
        replace (Z.of_nat (S (S fuel))) with (Z.succ (Z.of_nat (S fuel)))
          in Hn by lia.
        rewrite Z.pow_succ_r in Hn by lia. lia.
Qed.

Lemma hex_value_sprintf_x n : (0 ≤ n)%Z → hex_value_from 0 (sprintf_x n) = n.
Proof.
  intros Hn. unfold sprintf_x. apply hex_value_hex_fuel.
  split; [exact Hn|].
  destruct (Z.eq_dec n 0) as [->|Hne]; [reflexivity|].
  pose proof (Z.log2_spec n ltac:(lia)) as [_ Hlt].
  pose proof (Z.log2_nonneg n) as Hlog.
  replace (Z.of_nat (S (Z.to_nat (Z.log2 n)))) with (Z.succ (Z.log2 n)) by lia.
  pose proof (Z.pow_le_mono_l 2 16 (Z.succ (Z.log2 n)) ltac:(lia)). lia.
Qed.

Lemma sprintf_x_inj a b :
  (0 ≤ a)%Z → (0 ≤ b)%Z → sprintf_x a = sprintf_x b → a = b.
Proof.
  intros Ha Hb Heq.
  rewrite <- (hex_value_sprintf_x a Ha), <- (hex_value_sprintf_x b Hb).
  now rewrite Heq.
Qed.

Lemma temp_name_inj a b :
  (0 ≤ a)%Z → (0 ≤ b)%Z → temp_name a = temp_name b → a = b.
Proof.
  intros Ha Hb Heq. unfold temp_name, temp_prefix in Heq. simpl in Heq.
  injection Heq as Heq. now apply sprintf_x_inj.
Qed.

Lemma temp_name_has_prefix n : has_temp_prefix (temp_name n) = true.
Proof.
  unfold has_temp_prefix, temp_name, temp_prefix. simpl.
  destruct (sprintf_x n); reflexivity.
Qed.

Lemma has_temp_prefix_substring (p : string) :
  ∀ name, String.eqb (substring 0 (String.length p) name) p = String.prefix p name.
Proof.
  induction p as [|a p IH]; intros [|b name]; try reflexivity.
  simpl. rewrite IH.
  destruct (ascii_dec a b) as [<-|Hne].
  - now rewrite Ascii.eqb_refl.
  - destruct (Ascii.eqb_spec b a) as [->|_]; [contradiction | reflexivity].
Qed.

(** The test of the source is the test "[name] begins with [__temp]". *)
Lemma has_temp_prefix_prefix name :
  has_temp_prefix name = String.prefix temp_prefix name.
Proof. apply (has_temp_prefix_substring temp_prefix). Qed.

Lemma hex_digit_is_hex d : is_hex_digit (hex_digit d) = true.
Proof.
  unfold hex_digit. generalize (Z.to_nat d) as i. intros i.
  do 16 (destruct i as [|i]; [reflexivity|]). reflexivity.
Qed.

Lemma hex_fuel_is_hex fuel :
  ∀ n acc, string_forallb is_hex_digit acc = true →
           string_forallb is_hex_digit (hex_fuel fuel n acc) = true.
Proof.
  induction fuel as [|fuel IH]; intros n acc Hacc; cbn [hex_fuel].
  - cbn [string_forallb]. now rewrite hex_digit_is_hex, Hacc.
  - destruct (n / 16 =? 0)%Z.
    + cbn [string_forallb]. now rewrite hex_digit_is_hex, Hacc.
    + apply IH. cbn [string_forallb]. now rewrite hex_digit_is_hex, Hacc.
Qed.

Lemma sprintf_x_is_hex n : string_forallb is_hex_digit (sprintf_x n) = true.
Proof. apply hex_fuel_is_hex. reflexivity. Qed.

(** ** Lookup *)

Lemma GetEntry_bound name t r :
  m_InstanceMap t !! name = Some r →
  GetEntry name t = MkOutcome t [] (Returned r).
Proof.
  intros Hn. unfold GetEntry, bind, CheckExists, Exists, read_instance.
  rewrite Hn. cbn. rewrite Hn. reflexivity.
Qed.

Lemma GetEntry_unbound name t :
  m_InstanceMap t !! name = None →
  GetEntry name t =
    MkOutcome t [] (Thrown (UndefinedInstanceNameException name)).
Proof.
  intros Hn. unfold GetEntry, bind, CheckExists, Exists. rewrite Hn. reflexivity.
Qed.

(** ** The shape of a destruction *)

Lemma deletions_of_app object tr1 tr2 :
  deletions_of object (tr1 ++ tr2) =
    (deletions_of object tr1 + deletions_of object tr2)%nat.
Proof. unfold deletions_of. now rewrite List.filter_app, List.length_app. Qed.

Lemma deletions_of_foreign name object tr :
  Forall (fun e => ¬ own_event name object e) tr → deletions_of object tr = O.
Proof.
  induction 1 as [|e tr He _ IH]; [reflexivity|].
  unfold deletions_of in *. cbn.
  destruct e; cbn; try exact IH.
  rewrite bool_decide_eq_false_2; [exact IH|]. exact He.
Qed.

(** While the delete function of [name] runs, no notification can reach
    the instance again: its reverse entry is gone, and no other reverse
    entry leads to its name. *)
Lemma notified_foreign name object type t tr :
  consistent t →
  m_InstanceMap t !! name =
    Some {| Reference_GetObject := object;
            Reference_GetReferencedType := type |} →
  notified (set_AddressToNameMap (delete object) t) tr →
  Forall (fun e => ¬ own_event name object e) tr.
Proof.
  intros Ht Hname Hn. apply Forall_forall. intros e Hin Hown.
  apply list_elem_of_In in Hin.
  destruct (Hn e Hin) as (q & n & Hlook & Hown'). cbn in Hlook.
  assert (q ≠ object) as Hq.
  { intros ->. rewrite lookup_delete_eq in Hlook. discriminate. }
  rewrite lookup_delete_ne in Hlook by auto.
  destruct (Ht _ _ Hlook) as [ty Hty].
  destruct e; cbn in Hown, Hown'; try congruence.
Qed.

Lemma for_each_unknown (del : string → M unit) (l : list Z) t :
  Forall (fun q => m_AddressToNameMap t !! q = None) l →
  for_each (DeleteCallBack_with del) l t = MkOutcome t [] (Returned tt).
Proof.
  induction 1 as [|q l Hq _ IH]; [reflexivity|].
  rewrite for_each_cons. unfold DeleteCallBack_with at 1. rewrite Hq. cbn.
  rewrite IH. reflexivity.
Qed.

Lemma DeleteObject_fuel_shape fuel name object type func t :
  consistent t →
  m_InstanceMap t !! name =
    Some {| Reference_GetObject := object;
            Reference_GetReferencedType := type |} →
  m_DeleteFunctionMap t !! CvQualifiedType_GetType type = Some func →
  let o := DeleteObject_fuel (S fuel) name t in
  ∃ nested,
    Forall (fun e => ¬ own_event name object e) nested ∧
    ((result o = Returned tt ∧
      trace o = AddressErased object ::
                DeleteFunctionCalled (CvQualifiedType_GetType type) object ::
                nested ++ [InstanceErased name; TclCommandDeleted name] ∧
      m_InstanceMap (final o) !! name = None ∧
      m_AddressToNameMap (final o) !! object = None) ∨
     ((∀ u, result o ≠ Returned u) ∧
      trace o = AddressErased object ::
                DeleteFunctionCalled (CvQualifiedType_GetType type) object ::
                nested)).
Proof.
  intros Ht Hname Hfunc.
  rewrite (DeleteObject_fuel_function _ _ _ _ _ Hname Hfunc). cbn.
  set (t1 := set_AddressToNameMap (delete object) t).
  pose proof (for_each_nested_ok _ (func object)
                (DeleteCallBack_with_nested_ok _ (DeleteObject_fuel_ok fuel)) t1
                (consistent_erase_address object t Ht)) as (Hc & Hs & Hn).
  set (o := for_each (DeleteCallBack_with (DeleteObject_fuel fuel))
              (func object) t1) in *.
  exists (trace o).
  split; [exact (notified_foreign name object type t _ Ht Hname Hn)|].
  destruct (result o) as [[]|e|]; cbn.
  - left. split; [reflexivity|]. split; [reflexivity|].
    split; [apply lookup_delete_eq|].
    eapply lookup_weaken_None; [|apply (shrinks_address _ _ _ Hs)].
    subst t1. cbn. apply lookup_delete_eq.
  - right. split; [discriminate | reflexivity].
  - right. split; [discriminate | reflexivity].
Qed.

Lemma DeleteObject_fuel_benign fuel name object type func t :
  m_InstanceMap t !! name =
    Some {| Reference_GetObject := object;
            Reference_GetReferencedType := type |} →
  m_DeleteFunctionMap t !! CvQualifiedType_GetType type = Some func →
  Forall (fun q => m_AddressToNameMap t !! q = None ∨ q = object)
         (func object) →
  DeleteObject_fuel (S fuel) name t =
    MkOutcome (set_InstanceMap (delete name)
                 (set_AddressToNameMap (delete object) t))
      [AddressErased object;
       DeleteFunctionCalled (CvQualifiedType_GetType type) object;
       InstanceErased name; TclCommandDeleted name]
      (Returned tt).
Proof.
  intros Hname Hfunc Hquiet.
  rewrite (DeleteObject_fuel_function _ _ _ _ _ Hname Hfunc). cbn.
  rewrite for_each_unknown; [reflexivity|].
  eapply Forall_impl; [exact Hquiet|]. cbn. intros q [Hq| ->].
  - eapply lookup_weaken_None; [exact Hq | apply delete_subseteq].
  - apply lookup_delete_eq.
Qed.

(** ** What [SetObject] leaves behind *)

Lemma SetObject_number name object type t :
  consistent t →
  m_TempNameNumber (final (SetObject name object type t)) = m_TempNameNumber t.
Proof.
  intros Ht. destruct (m_InstanceMap t !! name) as [r|] eqn:Hname.
  - rewrite (SetObject_bound _ _ _ _ _ Hname). cbn zeta.
    destruct (DeleteObject_fuel_ok (fuel_for t) name t Ht) as (_ & Hs & _).
    fold (DeleteObject name t) in Hs.
    destruct (result (DeleteObject name t)); cbn; apply Hs.
  - rewrite (SetObject_unbound _ _ _ _ Hname). reflexivity.
Qed.

Lemma SetObject_returned name object type t u :
  consistent t →
  result (SetObject name object type t) = Returned u →
  m_InstanceMap (final (SetObject name object type t)) !! name =
    Some {| Reference_GetObject := object;
            Reference_GetReferencedType := type |} ∧
  ∀ n, n ≠ name →
       ¬ In (InstanceErased n) (trace (SetObject name object type t)) →
       m_InstanceMap (final (SetObject name object type t)) !! n =
         m_InstanceMap t !! n.
Proof.
  intros Ht. destruct (m_InstanceMap t !! name) as [r|] eqn:Hname.
  - rewrite (SetObject_bound _ _ _ _ _ Hname). cbn zeta.
    destruct (DeleteObject_fuel_ok (fuel_for t) name t Ht) as (_ & Hs & _).
    fold (DeleteObject name t) in Hs.
    destruct (result (DeleteObject name t)); cbn; try discriminate.
    intros _. split; [apply lookup_insert_eq|].
    intros n Hne Hnot. rewrite lookup_insert_ne by auto.
    apply (shrinks_kept _ _ _ Hs). intros Hin. apply Hnot, in_or_app. auto.
  - rewrite (SetObject_unbound _ _ _ _ Hname). cbn.
    intros _. split; [apply lookup_insert_eq|].
    intros n Hne _. now rewrite lookup_insert_ne.
Qed.

Lemma run_number op t :
  consistent t → 0 ≤ m_TempNameNumber t < UINT_MODULUS →
  0 ≤ m_TempNameNumber (final (run op t)) < UINT_MODULUS.
Proof.
  intros Ht Hrange.
  destruct op as [name object type|name|object type|name|object|type func];
    cbn [run].
  - now rewrite SetObject_number.
  - destruct (DeleteObject_fuel_ok (fuel_for t) name t Ht) as (_ & Hs & _).
    fold (DeleteObject name t) in Hs. now rewrite (shrinks_number _ _ _ Hs).
  - unfold bind. rewrite CreateTemporary_unfold. cbn.
    assert (m_TempNameNumber (final (SetObject
              (temp_name (m_TempNameNumber t)) object type
              (set_TempNameNumber (fun n => (n + 1) mod UINT_MODULUS) t))) =
            (m_TempNameNumber t + 1) mod UINT_MODULUS) as Heq
      by (now rewrite SetObject_number).
    assert (0 ≤ (m_TempNameNumber t + 1) mod UINT_MODULUS < UINT_MODULUS)
      by (apply Z.mod_pos_bound; reflexivity).
    destruct (result (SetObject _ _ _ _)); cbn; rewrite Heq; assumption.
  - rewrite DeleteIfTemporary_unfold.
    destruct (m_InstanceMap t !! name); [|exact Hrange].
    destruct (has_temp_prefix name); [|exact Hrange].
    destruct (DeleteObject_fuel_ok (fuel_for t) name t Ht) as (_ & Hs & _).
    fold (DeleteObject name t) in Hs. now rewrite (shrinks_number _ _ _ Hs).
  - destruct (DeleteCallBack_nested_ok object t Ht) as (_ & Hs & _).
    now rewrite (shrinks_number _ _ _ Hs).
  - exact Hrange.
Qed.

Lemma reachable_number t :
  reachable t → 0 ≤ m_TempNameNumber t < UINT_MODULUS.
Proof.
  induction 1 as [|op t Hreach IH]; [cbn; split; [lia | reflexivity]|].
  apply run_number; [apply reachable_consistent, Hreach | exact IH].
Qed.

Lemma reachable_run_all ops : ∀ t, reachable t → reachable (run_all ops t).
Proof.
  induction ops as [|op ops IH]; intros t Ht; [exact Ht|].
  apply IH. now constructor.
Qed.

Lemma sample_table_consistent : consistent sample_table.
Proof. apply reachable_consistent, reachable_run_all, reachable_new. Qed.

Lemma shared_table_reachable : reachable shared_table.
Proof. apply reachable_run_all, reachable_new. Qed.

(** ** The model at work *)

(** A notification issued while a delete function runs destroys the
    notified instance inside the outer destruction. *)
Example nested_destruction :
  DeleteObject "whole" nested_table =
    MkOutcome
      (set_InstanceMap (fun _ => ∅)
         (set_AddressToNameMap (fun _ => ∅) nested_table))
      [AddressErased 4096; DeleteFunctionCalled 100 4096;
       AddressErased 8192; DeleteFunctionCalled 100 8192;
       InstanceErased "part"; TclCommandDeleted "part";
       InstanceErased "whole"; TclCommandDeleted "whole"]
      (Returned tt).
Proof. vm_compute. reflexivity. Qed.

(** An exception thrown inside a notification leaves through the delete
    function and through the outer [DeleteObject], after the reverse entry
    of the outer object has been erased. *)
Example nested_exception :
  let o := DeleteObject "whole" part_without_function_table in
  result o = Thrown (UndefinedObjectTypeException 200) ∧
  trace o = [AddressErased 4096; DeleteFunctionCalled 100 4096] ∧
  Exists "whole" (final o) = true ∧
  m_AddressToNameMap (final o) !! 4096 = None.
Proof. repeat split; vm_compute; reflexivity. Qed.

(** The numerals of [%x]. *)
Example sprintf_x_samples :
  sprintf_x 0 = "0" ∧ sprintf_x 10 = "a" ∧ sprintf_x 255 = "ff" ∧
  sprintf_x 4096 = "1000" ∧ sprintf_x 4294967295 = "ffffffff".
Proof. repeat split; vm_compute; reflexivity. Qed.

(** * The claims *)

(** ** Lookup *)

(** C9: for every bound triple (name, object, type), lookup of the name
    through [GetEntry], [GetObject] and [GetType] returns exactly the stored
    object and type, writes nothing and leaves the table as it was, so the
    instance stays tracked; for every unbound name each of the three throws
    [UndefinedInstanceNameException]. *)
Theorem Lookup_returns_stored (name : string) (t : InstanceTable) :
  (∀ object type,
     m_InstanceMap t !! name =
       Some {| Reference_GetObject := object;
               Reference_GetReferencedType := type |} →
     GetEntry name t =
       MkOutcome t [] (Returned {| Reference_GetObject := object;
                                   Reference_GetReferencedType := type |}) ∧
     GetObject name t = MkOutcome t [] (Returned object) ∧
     GetType name t = MkOutcome t [] (Returned type)) ∧
  (m_InstanceMap t !! name = None →
     GetEntry name t =
       MkOutcome t [] (Thrown (UndefinedInstanceNameException name)) ∧
     GetObject name t =
       MkOutcome t [] (Thrown (UndefinedInstanceNameException name)) ∧
     GetType name t =
       MkOutcome t [] (Thrown (UndefinedInstanceNameException name))).
Proof.
  split.
  - intros object type Hname. split; [now apply GetEntry_bound|].
    unfold GetObject, GetType, bind, CheckExists, Exists, read_instance.
    rewrite Hname. cbn. rewrite Hname. cbn. split; reflexivity.
  - intros Hname. split; [now apply GetEntry_unbound|].
    unfold GetObject, GetType, bind, CheckExists, Exists.
    rewrite Hname. cbn. split; reflexivity.
Qed.

Lemma Lookup_returns_stored_witness :
  (m_InstanceMap sample_table !! "a" =
     Some {| Reference_GetObject := 4096;
             Reference_GetReferencedType := TypeX |} ∧
   GetObject "a" sample_table = MkOutcome sample_table [] (Returned 4096)) ∧
  (m_InstanceMap sample_table !! "zz" = None ∧
   GetObject "zz" sample_table =
     MkOutcome sample_table []
       (Thrown (UndefinedInstanceNameException "zz"))).
Proof.
  split; split.
  - vm_compute; reflexivity.
  - apply (proj1 (Lookup_returns_stored "a" sample_table) 4096 TypeX).
    vm_compute; reflexivity.
  - vm_compute; reflexivity.
  - apply (proj2 (Lookup_returns_stored "zz" sample_table)).
    vm_compute; reflexivity.
Defined.

(** ** Errors of [DeleteObject] *)

(** C5: [DeleteObject] checks its errors in order and writes nothing before
    a check passes.  On an unbound name it throws
    [UndefinedInstanceNameException]; on a bound name whose type has no
    delete function it throws [UndefinedObjectTypeException].  In both
    cases no event happens and the table is the one before the call, so
    that in the second case the name still exists and the reverse map
    still resolves the object's address to the name. *)
Theorem DeleteObject_errors (name : string) (t : InstanceTable) :
  (m_InstanceMap t !! name = None →
     DeleteObject name t =
       MkOutcome t [] (Thrown (UndefinedInstanceNameException name))) ∧
  (∀ object type,
     m_InstanceMap t !! name =
       Some {| Reference_GetObject := object;
               Reference_GetReferencedType := type |} →
     m_DeleteFunctionMap t !! CvQualifiedType_GetType type = None →
     DeleteObject name t =
       MkOutcome t []
         (Thrown (UndefinedObjectTypeException (CvQualifiedType_GetType type))) ∧
     Exists name (final (DeleteObject name t)) = true ∧
     (m_AddressToNameMap t !! object = Some name →
      m_AddressToNameMap (final (DeleteObject name t)) !! object = Some name)).
Proof.
  split.
  - intros Hname. unfold DeleteObject, fuel_for.
    now apply DeleteObject_fuel_unbound.
  - intros object type Hname Hfunc.
    assert (DeleteObject name t =
            MkOutcome t []
              (Thrown (UndefinedObjectTypeException
                         (CvQualifiedType_GetType type)))) as ->.
    { unfold DeleteObject, fuel_for.
      now rewrite (DeleteObject_fuel_no_function _ _ _ _ Hname Hfunc). }
    cbn. unfold Exists. rewrite Hname. auto.
Qed.

Lemma DeleteObject_errors_witness :
  (m_InstanceMap sample_table !! "zz" = None ∧
   DeleteObject "zz" sample_table =
     MkOutcome sample_table []
       (Thrown (UndefinedInstanceNameException "zz"))) ∧
  (m_InstanceMap sample_table !! "y" =
     Some {| Reference_GetObject := 8192;
             Reference_GetReferencedType := TypeY |} ∧
   m_DeleteFunctionMap sample_table !! 200 = None ∧
   m_AddressToNameMap sample_table !! 8192 = Some "y" ∧
   DeleteObject "y" sample_table =
     MkOutcome sample_table [] (Thrown (UndefinedObjectTypeException 200)) ∧
   Exists "y" (final (DeleteObject "y" sample_table)) = true ∧
   m_AddressToNameMap (final (DeleteObject "y" sample_table)) !! 8192 =
     Some "y").
Proof.
  split; [split | split; [|split; [|split]]].
  - vm_compute; reflexivity.
  - apply (proj1 (DeleteObject_errors "zz" sample_table)).
    vm_compute; reflexivity.
  - vm_compute; reflexivity.
  - vm_compute; reflexivity.
  - vm_compute; reflexivity.
  - pose proof (proj2 (DeleteObject_errors "y" sample_table) 8192 TypeY
                  ltac:(vm_compute; reflexivity)
                  ltac:(vm_compute; reflexivity)) as (H1 & H2 & H3).
    split; [exact H1|]. split; [exact H2|].
    apply H3. vm_compute; reflexivity.
Defined.

(** ** A failing rebind changes nothing *)

(** C3: when [name] is bound to an instance whose type has no delete
    function, [SetObject] of a new object under that name ends with the
    exception of the implicit [DeleteObject] of the prior occupant; the new
    binding is not installed and the table, both maps included, is exactly
    the one before the call. *)
Theorem SetObject_failure_atomic (name : string) (object : Address)
    (type : CvQualifiedType) (t : InstanceTable) (r : Reference) :
  m_InstanceMap t !! name = Some r →
  m_DeleteFunctionMap t
    !! CvQualifiedType_GetType (Reference_GetReferencedType r) = None →
  SetObject name object type t =
    MkOutcome t []
      (Thrown (UndefinedObjectTypeException
                 (CvQualifiedType_GetType (Reference_GetReferencedType r)))) ∧
  result (SetObject name object type t) = result (DeleteObject name t) ∧
  m_InstanceMap (final (SetObject name object type t)) = m_InstanceMap t ∧
  m_AddressToNameMap (final (SetObject name object type t)) =
    m_AddressToNameMap t ∧
  m_InstanceMap (final (SetObject name object type t)) !! name = Some r.
Proof.
  intros Hname Hfunc.
  assert (DeleteObject name t =
          MkOutcome t []
            (Thrown (UndefinedObjectTypeException
               (CvQualifiedType_GetType (Reference_GetReferencedType r)))))
    as Hdel.
  { unfold DeleteObject, fuel_for.
    now rewrite (DeleteObject_fuel_no_function _ _ _ _ Hname Hfunc). }
  rewrite (SetObject_bound _ _ _ _ _ Hname), Hdel. cbn. auto.
Qed.

Lemma SetObject_failure_atomic_witness :
  m_InstanceMap sample_table !! "y" =
    Some {| Reference_GetObject := 8192;
            Reference_GetReferencedType := TypeY |} ∧
  m_DeleteFunctionMap sample_table !! 200 = None ∧
  SetObject "y" 12288 TypeX sample_table =
    MkOutcome sample_table [] (Thrown (UndefinedObjectTypeException 200)).
Proof.
  split; [vm_compute; reflexivity|]. split; [vm_compute; reflexivity|].
  apply (SetObject_failure_atomic "y" 12288 TypeX sample_table
           {| Reference_GetObject := 8192;
              Reference_GetReferencedType := TypeY |});
    vm_compute; reflexivity.
Defined.

(** ** [DeleteIfTemporary] *)

(** C7: [DeleteIfTemporary] throws [UndefinedInstanceNameException] for
    every unbound name; for every bound name that begins with the reserved
    prefix [__temp] it is exactly [DeleteObject]; for every bound name that
    does not, it returns without any event and leaves the table, and so the
    binding, as it was. *)
Theorem DeleteIfTemporary_cases (name : string) (t : InstanceTable) :
  (m_InstanceMap t !! name = None →
     DeleteIfTemporary name t =
       MkOutcome t [] (Thrown (UndefinedInstanceNameException name))) ∧
  (is_Some (m_InstanceMap t !! name) →
     String.prefix temp_prefix name = true →
     DeleteIfTemporary name t = DeleteObject name t) ∧
  (∀ r, m_InstanceMap t !! name = Some r →
     String.prefix temp_prefix name = false →
     DeleteIfTemporary name t = MkOutcome t [] (Returned tt) ∧
     m_InstanceMap (final (DeleteIfTemporary name t)) !! name = Some r).
Proof.
  rewrite <- has_temp_prefix_prefix.
  split3.
  - intros Hname. now rewrite DeleteIfTemporary_unfold, Hname.
  - intros [r Hname] Hprefix.
    now rewrite DeleteIfTemporary_unfold, Hname, Hprefix.
  - intros r Hname Hprefix.
    rewrite DeleteIfTemporary_unfold, Hname, Hprefix. cbn. auto.
Qed.

Lemma DeleteIfTemporary_cases_witness :
  (m_InstanceMap temporary_table !! "zz" = None ∧
   DeleteIfTemporary "zz" temporary_table =
     MkOutcome temporary_table []
       (Thrown (UndefinedInstanceNameException "zz"))) ∧
  (is_Some (m_InstanceMap temporary_table !! "__temp0") ∧
   String.prefix temp_prefix "__temp0" = true ∧
   DeleteIfTemporary "__temp0" temporary_table =
     DeleteObject "__temp0" temporary_table) ∧
  (m_InstanceMap temporary_table !! "a" =
     Some {| Reference_GetObject := 8192;
             Reference_GetReferencedType := TypeX |} ∧
   String.prefix temp_prefix "a" = false ∧
   DeleteIfTemporary "a" temporary_table =
     MkOutcome temporary_table [] (Returned tt)).
Proof.
  split3.
  - split; [vm_compute; reflexivity|].
    apply (proj1 (DeleteIfTemporary_cases "zz" temporary_table)).
    vm_compute; reflexivity.
  - split; [vm_compute; eauto|]. split; [reflexivity|].
    apply (proj1 (proj2 (DeleteIfTemporary_cases "__temp0" temporary_table))).
    + vm_compute; eauto.
    + reflexivity.
  - split; [vm_compute; reflexivity|]. split; [reflexivity|].
    apply (proj2 (proj2 (DeleteIfTemporary_cases "a" temporary_table))
             {| Reference_GetObject := 8192;
                Reference_GetReferencedType := TypeX |}).
    + vm_compute; reflexivity.
    + reflexivity.
Defined.

(** ** Temporary names *)

(** C10: for every value of the temporary counter that an unsigned 32-bit
    integer can hold, the name that [CreateTemporary] mints is the six
    characters [__temp] followed by at most eight hexadecimal digits; it is
    at most 14 characters long, and [sprintf] stores it with its
    terminating NUL within the 15 bytes of [tempName]. *)
Theorem CreateTemporary_name_fits (object : Address) (type : CvQualifiedType)
    (t : InstanceTable) :
  0 ≤ m_TempNameNumber t < UINT_MODULUS →
  ∃ digits,
    temp_name (m_TempNameNumber t) = temp_prefix ++ digits ∧
    (∀ name, result (CreateTemporary object type t) = Returned name →
             name = temp_prefix ++ digits) ∧
    String.length temp_prefix = 6%nat ∧
    (String.length digits ≤ 8)%nat ∧
    string_forallb is_hex_digit digits = true ∧
    (String.length (temp_prefix ++ digits) ≤ 14)%nat ∧
    (sprintf_bytes_written (temp_prefix ++ digits) ≤ tempName_size)%Z.
Proof.
  intros Hrange. exists (sprintf_x (m_TempNameNumber t)).
  pose proof (sprintf_x_length _ Hrange) as Hlen.
  split; [reflexivity|]. split.
  { intros name. rewrite CreateTemporary_unfold. cbn.
    destruct (result (SetObject _ _ _ _)); intros Heq; try discriminate.
    now injection Heq as <-. }
  split; [reflexivity|]. split; [exact Hlen|].
  split; [apply sprintf_x_is_hex|].
  unfold sprintf_bytes_written, tempName_size.
  rewrite string_length_app. cbn [String.length temp_prefix]. lia.
Qed.

Lemma CreateTemporary_name_fits_witness :
  0 ≤ m_TempNameNumber last_number_table < UINT_MODULUS ∧
  temp_name (m_TempNameNumber last_number_table) = "__tempffffffff" ∧
  ∃ digits,
    temp_name (m_TempNameNumber last_number_table) = temp_prefix ++ digits ∧
    (∀ name, result (CreateTemporary 4096 TypeX last_number_table) =
               Returned name → name = temp_prefix ++ digits) ∧
    String.length temp_prefix = 6%nat ∧
    (String.length digits ≤ 8)%nat ∧
    string_forallb is_hex_digit digits = true ∧
    (String.length (temp_prefix ++ digits) ≤ 14)%nat ∧
    (sprintf_bytes_written (temp_prefix ++ digits) ≤ tempName_size)%Z.
Proof.
  split; [vm_compute; split; [discriminate | reflexivity]|].
  split; [vm_compute; reflexivity|].
  apply (CreateTemporary_name_fits 4096 TypeX last_number_table).
  vm_compute; split; [discriminate | reflexivity].
Defined.

Lemma successor_differs (n : Z) :
  0 ≤ n < UINT_MODULUS → (n + 1) mod UINT_MODULUS ≠ n.
Proof.
  unfold UINT_MODULUS, UINT_BITS. change (2 ^ 32) with 4294967296.
  intros Hn.
  destruct (Z.eq_dec (n + 1) 4294967296) as [Heq|Hne].
  - rewrite Heq, Z_mod_same_full. lia.
  - rewrite Z.mod_small; lia.
Qed.

(** C8: two successive calls of [CreateTemporary] on the same table that
    both return mint two distinct names; each name is the reserved prefix
    followed by the counter in radix 16, the counter being incremented
    after it is read; the second name resolves through [GetEntry] after the
    second call, the first resolves after the first call and still does
    after the second unless the second call erased it.  The table is any
    one whose reverse map is backed by the forward map and whose counter is
    an unsigned 32-bit value, which every reachable table is. *)
Theorem CreateTemporary_twice (object1 object2 : Address)
    (type1 type2 : CvQualifiedType) (t : InstanceTable) (name1 name2 : string) :
  consistent t →
  0 ≤ m_TempNameNumber t < UINT_MODULUS →
  let o1 := CreateTemporary object1 type1 t in
  let o2 := CreateTemporary object2 type2 (final o1) in
  result o1 = Returned name1 →
  result o2 = Returned name2 →
  name1 = temp_prefix ++ sprintf_x (m_TempNameNumber t) ∧
  m_TempNameNumber (final o1) = (m_TempNameNumber t + 1) mod UINT_MODULUS ∧
  name2 = temp_prefix ++ sprintf_x (m_TempNameNumber (final o1)) ∧
  m_TempNameNumber (final o2) =
    (m_TempNameNumber (final o1) + 1) mod UINT_MODULUS ∧
  name1 ≠ name2 ∧
  GetEntry name1 (final o1) =
    MkOutcome (final o1) []
      (Returned {| Reference_GetObject := object1;
                   Reference_GetReferencedType := type1 |}) ∧
  GetEntry name2 (final o2) =
    MkOutcome (final o2) []
      (Returned {| Reference_GetObject := object2;
                   Reference_GetReferencedType := type2 |}) ∧
  (¬ In (InstanceErased name1) (trace o2) →
   GetEntry name1 (final o2) =
     MkOutcome (final o2) []
       (Returned {| Reference_GetObject := object1;
                    Reference_GetReferencedType := type1 |})).
Proof.
  intros Ht Hrange o1 o2 Hres1 Hres2. subst o1 o2.
  rewrite CreateTemporary_unfold in Hres2 |- *. cbn [final trace result] in *.
  rewrite CreateTemporary_unfold in Hres2 |- *. cbn [final trace result] in *.
  rewrite CreateTemporary_unfold in Hres1. cbn [final trace result] in *.
  set (next := fun n : Z => (n + 1) mod UINT_MODULUS) in *.
  set (s1 := SetObject (temp_name (m_TempNameNumber t)) object1 type1
               (set_TempNameNumber next t)) in *.
  assert (Hc0 : consistent (set_TempNameNumber next t))
    by now apply consistent_set_TempNameNumber.
  assert (Hn1 : m_TempNameNumber (final s1) = next (m_TempNameNumber t))
    by (subst s1; now rewrite SetObject_number).
  assert (Hc1 : consistent (final s1))
    by (subst s1; now apply SetObject_consistent).
  set (s2 := SetObject (temp_name (m_TempNameNumber (final s1))) object2 type2
               (set_TempNameNumber next (final s1))) in *.
  assert (Hc1' : consistent (set_TempNameNumber next (final s1)))
    by now apply consistent_set_TempNameNumber.
  assert (Hn2 : m_TempNameNumber (final s2) =
                next (m_TempNameNumber (final s1)))
    by (subst s2; now rewrite SetObject_number).
  destruct (result s1) as [[]|e|] eqn:Hr1; try discriminate.
  destruct (result s2) as [[]|e|] eqn:Hr2; try discriminate.
  injection Hres1 as <-. injection Hres2 as <-.
  destruct (SetObject_returned _ _ _ _ _ Hc0 Hr1) as [Hb1 _].
  destruct (SetObject_returned _ _ _ _ _ Hc1' Hr2) as [Hb2 Hk2].
  fold s1 in Hb1. fold s2 in Hb2, Hk2.
  assert (Hdiff : temp_name (m_TempNameNumber t) ≠
                  temp_name (m_TempNameNumber (final s1))).
  { intros Heq. apply temp_name_inj in Heq; [| lia |].
    - rewrite Hn1 in Heq. symmetry in Heq.
      now apply successor_differs in Heq.
    - rewrite Hn1. apply Z.mod_pos_bound. reflexivity. }
  split; [reflexivity|]. split; [exact Hn1|]. split; [reflexivity|].
  split; [exact Hn2|]. split; [exact Hdiff|].
  split; [now apply GetEntry_bound|]. split; [now apply GetEntry_bound|].
  intros Hnot. apply GetEntry_bound.
  rewrite Hk2; [exact Hb1 | exact Hdiff | exact Hnot].
Qed.

Lemma CreateTemporary_twice_witness :
  let o1 := CreateTemporary 12288 TypeX sample_table in
  let o2 := CreateTemporary 16384 TypeY (final o1) in
  (consistent sample_table ∧
   0 ≤ m_TempNameNumber sample_table < UINT_MODULUS ∧
   result o1 = Returned "__temp0" ∧ result o2 = Returned "__temp1") ∧
  "__temp0" ≠ "__temp1" ∧
  GetEntry "__temp0" (final o2) =
    MkOutcome (final o2) []
      (Returned {| Reference_GetObject := 12288;
                   Reference_GetReferencedType := TypeX |}) ∧
  GetEntry "__temp1" (final o2) =
    MkOutcome (final o2) []
      (Returned {| Reference_GetObject := 16384;
                   Reference_GetReferencedType := TypeY |}).
Proof.
  cbv zeta.
  assert (Hrange : 0 ≤ m_TempNameNumber sample_table < UINT_MODULUS)
    by (vm_compute; split; [discriminate | reflexivity]).
  assert (Hr1 : result (CreateTemporary 12288 TypeX sample_table) =
                Returned "__temp0") by (vm_compute; reflexivity).
  assert (Hr2 : result (CreateTemporary 16384 TypeY
                  (final (CreateTemporary 12288 TypeX sample_table))) =
                Returned "__temp1") by (vm_compute; reflexivity).
  destruct (CreateTemporary_twice 12288 16384 TypeX TypeY sample_table
              "__temp0" "__temp1" sample_table_consistent Hrange Hr1 Hr2)
    as (_ & _ & _ & _ & Hdiff & _ & Hsecond & Hfirst).
  split; [auto using sample_table_consistent|].
  split; [exact Hdiff|]. split; [|exact Hsecond].
  apply Hfirst. vm_compute. intros [H|[H|[]]]; discriminate.
Defined.

(** ** Destruction *)

(** C4: for every bound name whose type has a delete function, a
    [DeleteObject] that returns has done exactly this for the instance, in
    this order: erased the reverse-map entry of the object's address, called
    the registered delete function on the object, erased the forward-map
    entry, and asked Tcl to delete the command of that name.  Whatever
    happens in between comes from notifications for other instances, so the
    delete function is called on the object exactly once.  Afterwards the
    name does not exist and the reverse map has no entry for the address.
    While the delete function runs, a notification for the object finds no
    entry and does nothing.  This holds in every table whose reverse map is
    backed by the forward map, which every reachable table is.  The call
    never runs out of budget, and it returns whenever the delete function
    notifies only the object itself or addresses the table does not know. *)
Theorem DeleteObject_steps (name : string) (object : Address)
    (type : CvQualifiedType) (func : DeleteFunction) (t : InstanceTable) :
  consistent t →
  m_InstanceMap t !! name =
    Some {| Reference_GetObject := object;
            Reference_GetReferencedType := type |} →
  m_DeleteFunctionMap t !! CvQualifiedType_GetType type = Some func →
  let o := DeleteObject name t in
  result o ≠ Exhausted ∧
  (Forall (fun q => m_AddressToNameMap t !! q = None ∨ q = object)
          (func object) → result o = Returned tt) ∧
  (result o = Returned tt →
   ∃ nested,
     trace o =
       AddressErased object ::
       DeleteFunctionCalled (CvQualifiedType_GetType type) object ::
       nested ++ [InstanceErased name; TclCommandDeleted name] ∧
     Forall (fun e => ¬ own_event name object e) nested ∧
     deletions_of object (trace o) = 1%nat ∧
     Exists name (final o) = false ∧
     m_AddressToNameMap (final o) !! object = None) ∧
  (∀ del t', m_AddressToNameMap t' ⊆ delete object (m_AddressToNameMap t) →
     DeleteCallBack_with del object t' = MkOutcome t' [] (Returned tt)).
Proof.
  intros Ht Hname Hfunc o. subst o. split; [|split; [|split]].
  - now apply DeleteObject_not_exhausted.
  - intros Hquiet. unfold DeleteObject, fuel_for.
    now rewrite (DeleteObject_fuel_benign _ _ _ _ _ _ Hname Hfunc Hquiet).
  - intros Hres. unfold DeleteObject, fuel_for in *.
    destruct (DeleteObject_fuel_shape (size (m_AddressToNameMap t))
                name object type func t Ht Hname Hfunc)
      as (nested & Hforeign & [(_ & Htrace & Hgone & Hrev) | (Hno & _)]).
    2:{ exfalso. exact (Hno tt Hres). }
    exists nested. rewrite Htrace.
    split; [reflexivity|]. split; [exact Hforeign|].
    split; [|split; [|exact Hrev]].
    + change (AddressErased object :: DeleteFunctionCalled
                (CvQualifiedType_GetType type) object ::
                nested ++ [InstanceErased name; TclCommandDeleted name])
        with ([AddressErased object; DeleteFunctionCalled
                (CvQualifiedType_GetType type) object] ++
                nested ++ [InstanceErased name; TclCommandDeleted name])%list.
      rewrite !deletions_of_app, (deletions_of_foreign _ _ _ Hforeign).
      unfold deletions_of. cbn. now rewrite bool_decide_eq_true_2.
    + unfold Exists. now rewrite Hgone.
  - intros del t' Hsub. unfold DeleteCallBack_with.
    rewrite (lookup_weaken_None _ _ _ (lookup_delete_eq _ _) Hsub).
    reflexivity.
Qed.

Lemma DeleteObject_steps_witness :
  let o := DeleteObject "a" sample_table in
  (consistent sample_table ∧
   m_InstanceMap sample_table !! "a" =
     Some {| Reference_GetObject := 4096;
             Reference_GetReferencedType := TypeX |} ∧
   m_DeleteFunctionMap sample_table !! 100 = Some freeX) ∧
  result o = Returned tt ∧
  deletions_of 4096 (trace o) = 1%nat ∧
  Exists "a" (final o) = false ∧
  m_AddressToNameMap (final o) !! 4096 = None.
Proof.
  cbv zeta.
  assert (Hname : m_InstanceMap sample_table !! "a" =
                  Some {| Reference_GetObject := 4096;
                          Reference_GetReferencedType := TypeX |})
    by (vm_compute; reflexivity).
  assert (Hfunc : m_DeleteFunctionMap sample_table
                    !! CvQualifiedType_GetType TypeX = Some freeX)
    by (vm_compute; reflexivity).
  destruct (DeleteObject_steps "a" 4096 TypeX freeX sample_table
              sample_table_consistent Hname Hfunc)
    as (_ & Hquiet & Hsteps & _).
  assert (Hres : result (DeleteObject "a" sample_table) = Returned tt).
  { apply Hquiet. unfold freeX.
    constructor; [right; reflexivity | constructor]. }
  destruct (Hsteps Hres) as (nested & _ & _ & Hcount & Hgone & Hrev).
  repeat split; auto using sample_table_consistent.
Defined.

(** ** Rebinding a name *)




(** ** Destruction notifications *)

(** C1: the source departs from the claim.  The claim has
    [DeleteCallBack], made when an instance deletes itself, prune the two
    maps and the Tcl command and never call the delete function.  In the
    source it calls [DeleteObject]: on the address of the bound instance
    "a" the delete function registered for its type is called on the
    object, which is deleting itself; and on the address of "y", whose type
    has no delete function, it throws [UndefinedObjectTypeException] and
    prunes nothing. *)
Lemma DeleteCallBack_calls_delete_function :
  m_AddressToNameMap sample_table !! 4096 = Some "a" ∧
  m_InstanceMap sample_table !! "a" =
    Some {| Reference_GetObject := 4096;
            Reference_GetReferencedType := TypeX |} ∧
  trace (DeleteCallBack 4096 sample_table) =
    [AddressErased 4096; DeleteFunctionCalled 100 4096;
     InstanceErased "a"; TclCommandDeleted "a"] ∧
  deletions_of 4096 (trace (DeleteCallBack 4096 sample_table)) = 1%nat ∧
  m_AddressToNameMap sample_table !! 8192 = Some "y" ∧
  DeleteCallBack 8192 sample_table =
    MkOutcome sample_table [] (Thrown (UndefinedObjectTypeException 200)).
Proof. repeat split; vm_compute; reflexivity. Qed.

(** X16: on an address that the reverse map resolves to a bound name,
    [DeleteCallBack] has the outcome of [DeleteObject] of that name: when
    the type of the instance has a delete function its trace begins with
    the erase of the reverse entry followed by the call of that function
    on the object, and when it has none it throws
    [UndefinedObjectTypeException] with no event and no change.  On an
    address that the reverse map does not know it returns with no event
    and no change of the table. *)
Theorem DeleteCallBack_is_DeleteObject (object : Address) (t : InstanceTable) :
  (∀ name type,
     m_AddressToNameMap t !! object = Some name →
     m_InstanceMap t !! name =
       Some {| Reference_GetObject := object;
               Reference_GetReferencedType := type |} →
     DeleteCallBack object t = DeleteObject name t ∧
     (∀ func,
        m_DeleteFunctionMap t !! CvQualifiedType_GetType type = Some func →
        ∃ rest,
          trace (DeleteCallBack object t) =
            AddressErased object ::
            DeleteFunctionCalled (CvQualifiedType_GetType type) object ::
            rest) ∧
     (m_DeleteFunctionMap t !! CvQualifiedType_GetType type = None →
      DeleteCallBack object t =
        MkOutcome t []
          (Thrown (UndefinedObjectTypeException
                     (CvQualifiedType_GetType type))))) ∧
  (m_AddressToNameMap t !! object = None →
   DeleteCallBack object t = MkOutcome t [] (Returned tt)).
Proof.
  split.
  - intros name type Hlook Hname.
    assert (DeleteCallBack object t = DeleteObject name t) as Heq.
    { unfold DeleteCallBack, DeleteCallBack_with. now rewrite Hlook. }
    rewrite Heq. unfold DeleteObject, fuel_for. split3; [reflexivity | |].
    + intros func Hfunc.
      rewrite (DeleteObject_fuel_function _ _ _ _ _ Hname Hfunc). cbn.
      destruct (result (for_each _ _ _)); cbn; eauto.
    + intros Hfunc.
      now rewrite (DeleteObject_fuel_no_function _ _ _ _ Hname Hfunc).
  - intros Hlook. unfold DeleteCallBack, DeleteCallBack_with.
    now rewrite Hlook.
Qed.

Lemma DeleteCallBack_is_DeleteObject_witness :
  (m_AddressToNameMap sample_table !! 4096 = Some "a" ∧
   DeleteCallBack 4096 sample_table = DeleteObject "a" sample_table) ∧
  (m_AddressToNameMap sample_table !! 8192 = Some "y" ∧
   m_DeleteFunctionMap sample_table !! 200 = None ∧
   DeleteCallBack 8192 sample_table =
     MkOutcome sample_table [] (Thrown (UndefinedObjectTypeException 200))) ∧
  (m_AddressToNameMap sample_table !! 1 = None ∧
   DeleteCallBack 1 sample_table = MkOutcome sample_table [] (Returned tt)).
Proof.
  split3.
  - split; [vm_compute; reflexivity|].
    apply (proj1 (DeleteCallBack_is_DeleteObject 4096 sample_table)
             "a" TypeX); vm_compute; reflexivity.
  - split; [vm_compute; reflexivity|]. split; [vm_compute; reflexivity|].
    apply (proj1 (DeleteCallBack_is_DeleteObject 8192 sample_table)
             "y" TypeY); vm_compute; reflexivity.
  - split; [vm_compute; reflexivity|].
    apply (proj2 (DeleteCallBack_is_DeleteObject 1 sample_table)).
    vm_compute; reflexivity.
Defined.

(** ** When the reverse map knows every binding *)

Lemma for_each_returned {A} (body : A → M unit) (I : InstanceTable → Prop)
    (l : list A) :
  (∀ x t u, I t → result (body x t) = Returned u → I (final (body x t))) →
  ∀ t u, I t → result (for_each body l t) = Returned u →
         I (final (for_each body l t)).
Proof.
  intros Hbody. induction l as [|x l IH]; intros t u Ht Hres; [exact Ht|].
  rewrite for_each_cons in *. cbn zeta in *.
  pose proof (Hbody x t) as Hx.
  destruct (result (body x t)) as [u'|e|]; cbn in *; try discriminate.
  eapply IH; eauto.
Qed.

Lemma DeleteObject_fuel_covered fuel :
  ∀ (P : string → Prop) name object type t u,
    consistent t → covered P t →
    m_InstanceMap t !! name =
      Some {| Reference_GetObject := object;
              Reference_GetReferencedType := type |} →
    m_AddressToNameMap t !! object = Some name →
    result (DeleteObject_fuel fuel name t) = Returned u →
    covered P (final (DeleteObject_fuel fuel name t)).
Proof.
  induction fuel as [|fuel IH]; intros P name object type t u Ht Hcov Hname
    Hrev Hres; [discriminate|].
  destruct (DeleteObject_fuel_returned _ _ _ _ Hres)
    as (fuel' & r & func & Hfuel & Hr & Hfunc & [u' Hloop] & ->).
  injection Hfuel as <-. rewrite Hname in Hr. injection Hr as <-.
  cbn [Reference_GetObject Reference_GetReferencedType] in *.
  set (t1 := set_AddressToNameMap (delete object) t) in *.
  set (P' := fun n => P n ∨ n = name).
  assert (Hinv : consistent (final (for_each
                   (DeleteCallBack_with (DeleteObject_fuel fuel))
                   (func object) t1)) ∧
                 covered P' (final (for_each
                   (DeleteCallBack_with (DeleteObject_fuel fuel))
                   (func object) t1))).
  { apply (for_each_returned _ (fun s => consistent s ∧ covered P' s)
             (func object)) with (u := u'); [| |exact Hloop].
    - intros q s v [Hs Hc] Hq. split.
      + apply (DeleteCallBack_with_nested_ok _ (DeleteObject_fuel_ok fuel)), Hs.
      + unfold DeleteCallBack_with in *.
        destruct (m_AddressToNameMap s !! q) as [n|] eqn:Hlook; [|exact Hc].
        destruct (Hs _ _ Hlook) as [ty Hty].
        now apply (IH P' n q ty s v).
    - split; [now apply consistent_erase_address|].
      intros n a ty Hn. cbn in Hn.
      destruct (Hcov n a ty Hn) as [HP | Ha]; [left; left; exact HP|].
      destruct (decide (a = object)) as [->|Hne].
      + left. right. congruence.
      + right. cbn. now rewrite lookup_delete_ne. }
  destruct Hinv as [_ Hc]. intros n a ty Hn. cbn in Hn |- *.
  destruct (decide (n = name)) as [->|Hne];
    [rewrite lookup_delete_eq in Hn; discriminate|].
  rewrite lookup_delete_ne in Hn by auto.
  destruct (Hc n a ty Hn) as [[HP | Heq] | Ha]; [left; exact HP | | right; exact Ha].
  contradiction.
Qed.

Lemma DeleteObject_resolved name t u :
  consistent t → resolved t →
  result (DeleteObject name t) = Returned u →
  resolved (final (DeleteObject name t)).
Proof.
  intros Ht Hres Hret. unfold DeleteObject in *.
  destruct (DeleteObject_fuel_returned _ _ _ _ Hret)
    as (fuel' & [object type] & func & _ & Hname & _).
  destruct (Hres _ _ _ Hname) as [[] | Hrev].
  exact (DeleteObject_fuel_covered _ _ name object type t u Ht Hres Hname
           Hrev Hret).
Qed.

Lemma SetObject_returned_entries name object type t u :
  result (SetObject name object type t) = Returned u →
  m_InstanceMap (final (SetObject name object type t)) !! name =
    Some {| Reference_GetObject := object;
            Reference_GetReferencedType := type |} ∧
  m_AddressToNameMap (final (SetObject name object type t)) !! object =
    Some name.
Proof.
  destruct (m_InstanceMap t !! name) as [r|] eqn:Hname.
  - rewrite (SetObject_bound _ _ _ _ _ Hname). cbn zeta.
    destruct (result (DeleteObject name t)); cbn; try discriminate.
    intros _. split; apply lookup_insert_eq.
  - rewrite (SetObject_unbound _ _ _ _ Hname). cbn.
    intros _. split; apply lookup_insert_eq.
Qed.

Lemma resolved_bound_table name object type t t0 :
  resolved t0 → unshared name object t0 →
  m_InstanceMap t ⊆ m_InstanceMap t0 →
  resolved t → m_InstanceMap t !! name = None →
  resolved (bound_table name object type t).
Proof.
  intros Hres0 Hun Hsub Hres Hfree n a ty Hn. right. cbn in *.
  destruct (decide (n = name)) as [->|Hne].
  - rewrite lookup_insert_eq in Hn. injection Hn as <- <-.
    apply lookup_insert_eq.
  - rewrite lookup_insert_ne in Hn by auto.
    destruct (Hres n a ty Hn) as [[] | Ha].
    rewrite lookup_insert_ne; [exact Ha|].
    intros <-.
    destruct (Hres0 n object ty (lookup_weaken _ _ _ _ Hn Hsub)) as [[] | H0].
    destruct Hun as [Hun | Hun]; congruence.
Qed.

Lemma SetObject_resolved name object type t u :
  consistent t → resolved t → unshared name object t →
  result (SetObject name object type t) = Returned u →
  resolved (final (SetObject name object type t)).
Proof.
  intros Ht Hres Hun. destruct (m_InstanceMap t !! name) as [r|] eqn:Hname.
  - rewrite (SetObject_bound _ _ _ _ _ Hname). cbn zeta.
    pose proof (DeleteObject_resolved name t) as Hdel.
    pose proof (DeleteObject_returned_unbound name t) as Hfree.
    destruct (DeleteObject_fuel_ok (fuel_for t) name t Ht) as (_ & Hs & _).
    fold (DeleteObject name t) in Hs.
    destruct (result (DeleteObject name t)) as [v|e|]; cbn; try discriminate.
    intros _. apply (resolved_bound_table name object type _ t); eauto.
    apply Hs.
  - rewrite (SetObject_unbound _ _ _ _ Hname). cbn. intros _.
    now apply (resolved_bound_table name object type t t).
Qed.

Lemma resolved_same_maps t t' :
  m_InstanceMap t' = m_InstanceMap t →
  m_AddressToNameMap t' = m_AddressToNameMap t →
  resolved t → resolved t'.
Proof. intros Hi Ha Hres n a ty. rewrite Hi, Ha. apply Hres. Qed.

Lemma run_resolved op t :
  consistent t → resolved t → admissible op t → settled op t →
  resolved (final (run op t)).
Proof.
  intros Ht Hres Hadm [Hret | [Hi Ha]];
    [|now apply (resolved_same_maps t)].
  destruct op as [name object type|name|object type|name|object|type func];
    cbn [run admissible] in *.
  - now apply SetObject_resolved with (u := tt).
  - now apply DeleteObject_resolved with (u := tt).
  - unfold bind in *. rewrite CreateTemporary_unfold in *. cbn in *.
    set (t' := set_TempNameNumber (fun n => (n + 1) mod UINT_MODULUS) t) in *.
    pose proof (SetObject_resolved (temp_name (m_TempNameNumber t)) object
                  type t') as Hset.
    destruct (result (SetObject _ _ _ t')) as [u|e|]; cbn in *;
      try discriminate.
    now apply (Hset u).
  - rewrite DeleteIfTemporary_unfold in *.
    destruct (m_InstanceMap t !! name); [|exact Hres].
    destruct (has_temp_prefix name); [|exact Hres].
    now apply DeleteObject_resolved with (u := tt).
  - unfold DeleteCallBack, DeleteCallBack_with in *.
    destruct (m_AddressToNameMap t !! object); [|exact Hres].
    now apply DeleteObject_resolved with (u := tt).
  - exact Hres.
Qed.

Lemma reachable_unshared_reachable t : reachable_unshared t → reachable t.
Proof. induction 1; now constructor. Qed.

Lemma reachable_unshared_resolved t : reachable_unshared t → resolved t.
Proof.
  induction 1 as [|op t Hreach IH Hadm Hset].
  - intros n a ty Hn. cbn in Hn. rewrite lookup_empty in Hn. discriminate.
  - apply run_resolved; auto.
    apply reachable_consistent, reachable_unshared_reachable, Hreach.
Qed.

Lemma sample_table_unshared : reachable_unshared sample_table.
Proof.
  unfold sample_table, run_all. cbn [fold_left].
  apply reachable_unshared_run;
    [apply reachable_unshared_run;
       [apply reachable_unshared_run; [constructor | exact I |] | |] | |].
  - left. reflexivity.
  - left. vm_compute. reflexivity.
  - left. vm_compute. reflexivity.
  - left. vm_compute. reflexivity.
  - left. vm_compute. reflexivity.
Qed.

(** ** The two maps *)

(** C2, as the claim states it, fails: after the same object has been set
    under "a" and then under "b", the forward map binds "a" to the address
    while the reverse map resolves the address to "b".  It also fails
    after a [DeleteObject] that throws from a notification issued while
    the delete function runs: "whole" is still bound to its address, whose
    reverse entry is gone. *)
Lemma shared_address_not_resolved :
  (reachable shared_table ∧
   m_InstanceMap shared_table !! "a" =
     Some {| Reference_GetObject := 4096;
             Reference_GetReferencedType := TypeX |} ∧
   m_AddressToNameMap shared_table !! 4096 = Some "b" ∧
   ¬ (m_AddressToNameMap shared_table !! 4096 = Some "a" ↔
      ∃ type, m_InstanceMap shared_table !! "a" =
                Some {| Reference_GetObject := 4096;
                        Reference_GetReferencedType := type |})) ∧
  (reachable (final (run (OpDeleteObject "whole")
                       part_without_function_table)) ∧
   result (run (OpDeleteObject "whole") part_without_function_table) =
     Thrown (UndefinedObjectTypeException 200) ∧
   m_InstanceMap (final (run (OpDeleteObject "whole")
                           part_without_function_table)) !! "whole" =
     Some {| Reference_GetObject := 4096;
             Reference_GetReferencedType := TypeX |} ∧
   m_AddressToNameMap (final (run (OpDeleteObject "whole")
                                part_without_function_table)) !! 4096 =
     None).
Proof.
  split.
  - split; [exact shared_table_reachable|].
    split; [vm_compute; reflexivity|]. split; [vm_compute; reflexivity|].
    intros [_ Hback].
    assert (m_AddressToNameMap shared_table !! 4096 = Some "a") as Habs.
    { apply Hback. exists TypeX. vm_compute; reflexivity. }
    vm_compute in Habs. discriminate.
  - split; [apply reachable_run, reachable_run_all, reachable_new|].
    repeat split; vm_compute; reflexivity.
Qed.

(** C2, amended: in every table reachable by [SetObject], [DeleteObject],
    [CreateTemporary], [DeleteIfTemporary], [DeleteCallBack] and
    [SetDeleteFunction] calls, whatever they return or throw, an address
    that the reverse map resolves to a name is the address the forward map
    binds that name to; an address is the reverse key of at most one name,
    and a name is the reverse value of at most one address.  A [SetObject]
    that returns leaves the forward map binding the name to the object and
    the reverse map resolving the object to the name.  In every table
    reached by calls that never set an object which the reverse map
    resolves to another name, and that each return or leave both maps as
    they were, the two maps agree in both directions: an address maps to a
    name in the reverse map if and only if the forward map binds that name
    to that address. *)
Theorem reachable_maps_consistent (t : InstanceTable) :
  (reachable t →
   (∀ object name,
      m_AddressToNameMap t !! object = Some name →
      ∃ type, m_InstanceMap t !! name =
                Some {| Reference_GetObject := object;
                        Reference_GetReferencedType := type |}) ∧
   (∀ object name1 name2,
      m_AddressToNameMap t !! object = Some name1 →
      m_AddressToNameMap t !! object = Some name2 → name1 = name2) ∧
   (∀ object1 object2 name,
      m_AddressToNameMap t !! object1 = Some name →
      m_AddressToNameMap t !! object2 = Some name → object1 = object2)) ∧
  (∀ name object type,
     result (SetObject name object type t) = Returned tt →
     m_InstanceMap (final (SetObject name object type t)) !! name =
       Some {| Reference_GetObject := object;
               Reference_GetReferencedType := type |} ∧
     m_AddressToNameMap (final (SetObject name object type t)) !! object =
       Some name) ∧
  (reachable_unshared t →
   ∀ object name,
     m_AddressToNameMap t !! object = Some name ↔
     ∃ type, m_InstanceMap t !! name =
               Some {| Reference_GetObject := object;
                       Reference_GetReferencedType := type |}).
Proof.
  split3.
  - intros Hreach. pose proof (reachable_consistent t Hreach) as Ht.
    split3.
    + exact Ht.
    + congruence.
    + intros object1 object2 name H1 H2.
      destruct (Ht _ _ H1) as [type1 Hn1].
      destruct (Ht _ _ H2) as [type2 Hn2]. congruence.
  - intros name object type. apply SetObject_returned_entries.
  - intros Hreach object name. split.
    + apply reachable_consistent, reachable_unshared_reachable, Hreach.
    + intros [type Hname].
      destruct (reachable_unshared_resolved t Hreach _ _ _ Hname) as [[] | H].
      exact H.
Qed.

Lemma reachable_maps_consistent_witness :
  (reachable shared_table ∧
   ∃ type, m_InstanceMap shared_table !! "b" =
             Some {| Reference_GetObject := 4096;
                     Reference_GetReferencedType := type |}) ∧
  (result (SetObject "n" 12288 TypeX sample_table) = Returned tt ∧
   m_AddressToNameMap (final (SetObject "n" 12288 TypeX sample_table))
     !! 12288 = Some "n") ∧
  (reachable_unshared sample_table ∧
   m_InstanceMap sample_table !! "y" =
     Some {| Reference_GetObject := 8192;
             Reference_GetReferencedType := TypeY |} ∧
   m_AddressToNameMap sample_table !! 8192 = Some "y").
Proof.
  split3.
  - split; [exact shared_table_reachable|].
    apply (proj1 (proj1 (reachable_maps_consistent shared_table)
                    shared_table_reachable)).
    vm_compute; reflexivity.
  - assert (Hres : result (SetObject "n" 12288 TypeX sample_table) =
                   Returned tt) by (vm_compute; reflexivity).
    split; [exact Hres|].
    exact (proj2 (proj1 (proj2 (reachable_maps_consistent sample_table))
                    "n" 12288 TypeX Hres)).
  - assert (Hname : m_InstanceMap sample_table !! "y" =
                    Some {| Reference_GetObject := 8192;
                            Reference_GetReferencedType := TypeY |})
      by (vm_compute; reflexivity).
    split; [exact sample_table_unshared|]. split; [exact Hname|].
    apply (proj2 (proj2 (reachable_maps_consistent sample_table))
             sample_table_unshared 8192 "y").
    exists TypeY. exact Hname.
Defined.


(** * Further properties of the table *)

(** ** Runs of a loop of notifications *)

Lemma for_each_invariant {A} (body : A → M unit) (I : InstanceTable → Prop)
    (Q : list Event → Result unit → Prop) (l : list A) :
  Q [] (Returned tt) →
  (∀ tr1 u tr2 r, Q tr1 (Returned u) → Q tr2 r → Q (tr1 ++ tr2)%list r) →
  (∀ x t, I t → Q (trace (body x t)) (result (body x t)) ∧
                I (final (body x t))) →
  ∀ t, I t → Q (trace (for_each body l t)) (result (for_each body l t)).
Proof.
  intros Hnil Hseq Hbody. induction l as [|x l IH]; intros t Ht; [exact Hnil|].
  rewrite for_each_cons. cbn zeta.
  destruct (Hbody x t Ht) as [Hq Hi].
  destruct (result (body x t)) as [u|e|] eqn:Hres; cbn; auto.
  eapply Hseq; [exact Hq | apply IH, Hi].
Qed.

(** ** The order and the number of events *)

Lemma guards_weaken prev e : guards None e = true → guards prev e = true.
Proof. destruct e; cbn; congruence. Qed.

Lemma in_order_weaken prev tr :
  in_order None tr = true → in_order prev tr = true.
Proof.
  destruct tr as [|e tr]; [reflexivity|]. cbn.
  intros [Hg Hrest]%andb_prop. now rewrite (guards_weaken prev e Hg).
Qed.

Lemma in_order_app tr1 :
  ∀ prev tr2, in_order prev tr1 = true → in_order None tr2 = true →
              in_order prev (tr1 ++ tr2) = true.
Proof.
  induction tr1 as [|e tr1 IH]; intros prev tr2 H1 H2; cbn in *.
  - now apply in_order_weaken.
  - apply andb_prop in H1 as [Hg Hrest]. rewrite Hg. cbn. now apply IH.
Qed.

Lemma in_order_erase_command name :
  in_order None [InstanceErased name; TclCommandDeleted name] = true.
Proof. cbn. now rewrite bool_decide_eq_true_2. Qed.

Lemma count_events_app p tr1 tr2 :
  count_events p (tr1 ++ tr2) =
    (count_events p tr1 + count_events p tr2)%nat.
Proof. unfold count_events. now rewrite List.filter_app, List.length_app. Qed.

Lemma well_formed_nil : well_formed [] (Returned tt).
Proof. split3; [reflexivity | reflexivity | reflexivity]. Qed.

Lemma well_formed_seq tr1 u tr2 r :
  well_formed tr1 (Returned u) → well_formed tr2 r →
  well_formed (tr1 ++ tr2) r.
Proof.
  intros (Ho1 & Hle1 & Heq1) (Ho2 & Hle2 & Heq2). destruct u.
  specialize (Heq1 eq_refl). split3.
  - now apply in_order_app.
  - rewrite !count_events_app. lia.
  - intros Hr. rewrite !count_events_app, Heq1, (Heq2 Hr). reflexivity.
Qed.

Lemma well_formed_stop tr e : in_order None tr = true →
  (count_events is_command_deletion tr ≤ count_events is_call tr)%nat →
  well_formed tr (Thrown e) ∧ well_formed tr Exhausted.
Proof. intros Ho Hle. split; (split3; [exact Ho | exact Hle | discriminate]). Qed.

Lemma DeleteObject_fuel_well_formed fuel :
  ∀ name t, well_formed (trace (DeleteObject_fuel fuel name t))
                        (result (DeleteObject_fuel fuel name t)).
Proof.
  induction fuel as [|fuel IH]; intros name t.
  - rewrite DeleteObject_fuel_O. cbn. split3; [reflexivity | unfold count_events; cbn; lia | discriminate].
  - destruct (m_InstanceMap t !! name) as [r|] eqn:Hname.
    2:{ rewrite DeleteObject_fuel_unbound by assumption. cbn.
        split3; [reflexivity | unfold count_events; cbn; lia | discriminate]. }
    destruct (m_DeleteFunctionMap t
                !! CvQualifiedType_GetType (Reference_GetReferencedType r))
      as [func|] eqn:Hfunc.
    2:{ rewrite (DeleteObject_fuel_no_function _ _ _ _ Hname Hfunc). cbn.
        split3; [reflexivity | unfold count_events; cbn; lia | discriminate]. }
    rewrite (DeleteObject_fuel_function _ _ _ _ _ Hname Hfunc). cbn zeta.
    set (object := Reference_GetObject r).
    set (type := CvQualifiedType_GetType (Reference_GetReferencedType r)).
    set (o := for_each _ _ _).
    assert (Hnested : well_formed (trace o) (result o)).
    { subst o. apply (for_each_invariant _ (fun _ => True) well_formed);
        [exact well_formed_nil | exact well_formed_seq | | exact I].
      intros x s _. split; [|exact I]. unfold DeleteCallBack_with.
      destruct (m_AddressToNameMap s !! x); [apply IH | exact well_formed_nil]. }
    destruct Hnested as (Ho & Hle & Heq).
    assert (Hhead : ∀ rest, in_order None rest = true →
      in_order None
        (AddressErased object :: DeleteFunctionCalled type object :: rest) =
      true).
    { intros rest Hrest. cbn. rewrite bool_decide_eq_true_2 by reflexivity.
      cbn. now apply in_order_weaken. }
    destruct (result o) as [[]|e|]; cbn [trace result]; split3.
    + apply Hhead, in_order_app; [exact Ho | apply in_order_erase_command].
    + change (AddressErased object :: DeleteFunctionCalled type object ::
                trace o ++ [InstanceErased name; TclCommandDeleted name])
        with ([AddressErased object; DeleteFunctionCalled type object] ++
                trace o ++ [InstanceErased name; TclCommandDeleted name])%list.
      rewrite !count_events_app. unfold count_events in *. cbn. lia.
    + intros _.
      change (AddressErased object :: DeleteFunctionCalled type object ::
                trace o ++ [InstanceErased name; TclCommandDeleted name])
        with ([AddressErased object; DeleteFunctionCalled type object] ++
                trace o ++ [InstanceErased name; TclCommandDeleted name])%list.
      rewrite !count_events_app, (Heq eq_refl). unfold count_events in *. cbn. lia.
    + now apply Hhead.
    + change (AddressErased object :: DeleteFunctionCalled type object ::
                trace o)
        with ([AddressErased object; DeleteFunctionCalled type object] ++
                trace o)%list.
      rewrite !count_events_app. unfold count_events in *. cbn. lia.
    + discriminate.
    + now apply Hhead.
    + change (AddressErased object :: DeleteFunctionCalled type object ::
                trace o)
        with ([AddressErased object; DeleteFunctionCalled type object] ++
                trace o)%list.
      rewrite !count_events_app. unfold count_events in *. cbn. lia.
    + discriminate.
Qed.

Lemma SetObject_well_formed name object type t :
  well_formed (trace (SetObject name object type t))
              (result (SetObject name object type t)).
Proof.
  destruct (m_InstanceMap t !! name) as [r|] eqn:Hname.
  - rewrite (SetObject_bound _ _ _ _ _ Hname). cbn zeta.
    pose proof (DeleteObject_fuel_well_formed (fuel_for t) name t)
      as (Ho & Hle & Heq).
    fold (DeleteObject name t) in Ho, Hle, Heq.
    destruct (result (DeleteObject name t)) as [[]|e|]; cbn [trace result];
      split3; auto; try discriminate.
    + apply in_order_app; [exact Ho | reflexivity].
    + rewrite !count_events_app. unfold count_events in *. cbn. lia.
    + intros _. rewrite !count_events_app, (Heq eq_refl). reflexivity.
  - rewrite (SetObject_unbound _ _ _ _ Hname). cbn.
    split3; [reflexivity | reflexivity | reflexivity].
Qed.

Lemma run_well_formed op t :
  well_formed (trace (run op t)) (result (run op t)).
Proof.
  destruct op as [name object type|name|object type|name|object|type func];
    cbn [run].
  - apply SetObject_well_formed.
  - apply DeleteObject_fuel_well_formed.
  - unfold bind. rewrite CreateTemporary_unfold. cbn.
    pose proof (SetObject_well_formed (temp_name (m_TempNameNumber t))
                  object type
                  (set_TempNameNumber (fun n => (n + 1) mod UINT_MODULUS) t))
      as (Ho & Hle & Heq).
    destruct (result (SetObject _ _ _ _)) as [[]|e|]; cbn;
      rewrite ?app_nil_r; split3; auto; discriminate.
  - rewrite DeleteIfTemporary_unfold.
    destruct (m_InstanceMap t !! name);
      [|cbn; split3; [reflexivity | reflexivity | discriminate]].
    destruct (has_temp_prefix name); [|exact well_formed_nil].
    apply DeleteObject_fuel_well_formed.
  - unfold DeleteCallBack, DeleteCallBack_with.
    destruct (m_AddressToNameMap t !! object); [|exact well_formed_nil].
    apply DeleteObject_fuel_well_formed.
  - exact well_formed_nil.
Qed.

Lemma in_order_before tr :
  ∀ prev pre e post,
    in_order prev tr = true → tr = (pre ++ e :: post)%list →
    (pre = [] ∧ guards prev e = true) ∨
    ∃ pre' x, pre = (pre' ++ [x])%list ∧ guards (Some x) e = true.
Proof.
  induction tr as [|y tr IH]; intros prev pre e post Ho Heq.
  - destruct pre; discriminate.
  - cbn in Ho. apply andb_prop in Ho as [Hg Hrest].
    destruct pre as [|z pre]; cbn in Heq; injection Heq as <- ->; [auto|].
    right.
    destruct (IH (Some y) pre e post Hrest eq_refl)
      as [[-> Hy] | (pre' & x & -> & Hx)].
    + exists [], y. auto.
    + exists (y :: pre'), x. auto.
Qed.

(** ** Which exceptions a run can end with *)

Lemma DeleteObject_fuel_names_defined fuel :
  ∀ name t, consistent t → is_Some (m_InstanceMap t !! name) →
            names_defined (result (DeleteObject_fuel fuel name t)).
Proof.
  induction fuel as [|fuel IH]; intros name t Ht [r Hname].
  - rewrite DeleteObject_fuel_O. intros n. discriminate.
  - destruct (m_DeleteFunctionMap t
                !! CvQualifiedType_GetType (Reference_GetReferencedType r))
      as [func|] eqn:Hfunc.
    2:{ rewrite (DeleteObject_fuel_no_function _ _ _ _ Hname Hfunc).
        intros n. discriminate. }
    rewrite (DeleteObject_fuel_function _ _ _ _ _ Hname Hfunc). cbn zeta.
    set (o := for_each _ _ _).
    assert (Hnested : names_defined (result o)).
    { subst o.
      apply (for_each_invariant _ consistent (fun _ r => names_defined r));
        [intros n; discriminate | auto | | now apply consistent_erase_address].
      intros x s Hs. split.
      - unfold DeleteCallBack_with.
        destruct (m_AddressToNameMap s !! x) as [n|] eqn:Hx;
          [|intros n; discriminate].
        destruct (Hs _ _ Hx) as [ty Hty]. apply IH; eauto.
      - apply (DeleteCallBack_with_nested_ok _ (DeleteObject_fuel_ok fuel)), Hs. }
    destruct (result o) as [[]|e|]; cbn; [intros n; discriminate | | ];
      exact Hnested.
Qed.

Lemma DeleteObject_names_defined name t n :
  consistent t →
  result (DeleteObject name t) = Thrown (UndefinedInstanceNameException n) →
  n = name ∧ m_InstanceMap t !! name = None.
Proof.
  intros Ht Hres. destruct (m_InstanceMap t !! name) as [r|] eqn:Hname.
  - exfalso. eapply (DeleteObject_fuel_names_defined (fuel_for t) name t); eauto.
  - unfold DeleteObject, fuel_for in Hres.
    rewrite DeleteObject_fuel_unbound in Hres by assumption.
    cbn in Hres. injection Hres as <-. auto.
Qed.

Lemma DeleteCallBack_names_defined object t :
  consistent t → names_defined (result (DeleteCallBack object t)).
Proof.
  intros Ht. unfold DeleteCallBack, DeleteCallBack_with.
  destruct (m_AddressToNameMap t !! object) as [n|] eqn:Hx;
    [|intros n; discriminate].
  destruct (Ht _ _ Hx) as [ty Hty].
  apply (DeleteObject_fuel_names_defined (fuel_for t)); eauto.
Qed.

Lemma SetObject_names_defined name object type t :
  consistent t → names_defined (result (SetObject name object type t)).
Proof.
  intros Ht. destruct (m_InstanceMap t !! name) as [r|] eqn:Hname.
  - rewrite (SetObject_bound _ _ _ _ _ Hname). cbn zeta.
    pose proof (DeleteObject_fuel_names_defined (fuel_for t) name t Ht
                  ltac:(eauto)) as Hdef.
    fold (DeleteObject name t) in Hdef.
    destruct (result (DeleteObject name t)) as [[]|e|]; cbn;
      [intros n; discriminate | exact Hdef | exact Hdef].
  - rewrite (SetObject_unbound _ _ _ _ Hname). intros n. discriminate.
Qed.

Lemma SetObject_not_exhausted name object type t :
  consistent t → result (SetObject name object type t) ≠ Exhausted.
Proof.
  intros Ht. destruct (m_InstanceMap t !! name) as [r|] eqn:Hname.
  - rewrite (SetObject_bound _ _ _ _ _ Hname). cbn zeta.
    pose proof (DeleteObject_not_exhausted name t Ht).
    destruct (result (DeleteObject name t)); cbn; congruence.
  - rewrite (SetObject_unbound _ _ _ _ Hname). discriminate.
Qed.

Lemma SetObject_functions name object type t :
  consistent t →
  m_DeleteFunctionMap (final (SetObject name object type t)) =
    m_DeleteFunctionMap t.
Proof.
  intros Ht. destruct (m_InstanceMap t !! name) as [r|] eqn:Hname.
  - rewrite (SetObject_bound _ _ _ _ _ Hname). cbn zeta.
    destruct (DeleteObject_fuel_ok (fuel_for t) name t Ht) as (_ & Hs & _).
    fold (DeleteObject name t) in Hs.
    destruct (result (DeleteObject name t)); cbn; apply Hs.
  - rewrite (SetObject_unbound _ _ _ _ Hname). reflexivity.
Qed.

(** ** Destroying an instance whose delete function stays local *)

Lemma DeleteObject_benign name object type func t :
  m_InstanceMap t !! name =
    Some {| Reference_GetObject := object;
            Reference_GetReferencedType := type |} →
  m_DeleteFunctionMap t !! CvQualifiedType_GetType type = Some func →
  Forall (fun q => m_AddressToNameMap t !! q = None ∨ q = object)
         (func object) →
  DeleteObject name t =
    MkOutcome (set_InstanceMap (delete name)
                 (set_AddressToNameMap (delete object) t))
      [AddressErased object;
       DeleteFunctionCalled (CvQualifiedType_GetType type) object;
       InstanceErased name; TclCommandDeleted name]
      (Returned tt).
Proof.
  intros Hname Hfunc Hquiet. unfold DeleteObject, fuel_for.
  exact (DeleteObject_fuel_benign _ _ _ _ func _ Hname Hfunc Hquiet).
Qed.

Lemma quiet_after_bind name object (l : list Z) (m : gmap Z string) :
  Forall (fun q => m !! q = None ∨ q = object) l →
  Forall (fun q => <[object := name]> m !! q = None ∨ q = object) l.
Proof.
  intros H. eapply Forall_impl; [exact H|]. cbn. intros q [Hq | ->]; [|auto].
  destruct (decide (q = object)) as [->|Hne]; [auto|].
  left. now rewrite lookup_insert_ne.
Qed.

Lemma quiet_after_erase object (l : list Z) (m : gmap Z string) :
  Forall (fun q => m !! q = None ∨ q = object) l →
  Forall (fun q => delete object m !! q = None ∨ q = object) l.
Proof.
  intros H. eapply Forall_impl; [exact H|]. cbn. intros q [Hq | ->]; [|auto].
  left. eapply lookup_weaken_None; [exact Hq | apply delete_subseteq].
Qed.

Lemma table_eq (t t' : InstanceTable) :
  m_InstanceMap t = m_InstanceMap t' →
  m_AddressToNameMap t = m_AddressToNameMap t' →
  m_DeleteFunctionMap t = m_DeleteFunctionMap t' →
  m_TempNameNumber t = m_TempNameNumber t' → t = t'.
Proof. destruct t, t'. cbn. now intros -> -> -> ->. Qed.

(** Binding a free name to an object the table does not track and
    destroying it again gives the table back. *)
Lemma bind_then_destroy name object type func t :
  m_InstanceMap t !! name = None →
  m_AddressToNameMap t !! object = None →
  m_DeleteFunctionMap t !! CvQualifiedType_GetType type = Some func →
  Forall (fun q => m_AddressToNameMap t !! q = None ∨ q = object)
         (func object) →
  DeleteObject name (bound_table name object type t) =
    MkOutcome t
      [AddressErased object;
       DeleteFunctionCalled (CvQualifiedType_GetType type) object;
       InstanceErased name; TclCommandDeleted name]
      (Returned tt).
Proof.
  intros Hname Hobject Hfunc Hquiet.
  rewrite (DeleteObject_benign name object type func).
  - f_equal. apply table_eq; cbn; try reflexivity.
    + rewrite delete_insert_eq. now apply delete_id.
    + rewrite delete_insert_eq. now apply delete_id.
  - cbn. apply lookup_insert_eq.
  - exact Hfunc.
  - cbn. now apply quiet_after_bind.
Qed.

(** * The further properties *)

(** ** Order and number of the events *)

(** X1: in the trace of every operation, nested destructions included, a
    call of a delete function on an object comes right after the erase of
    the reverse-map entry of that object, and a request to delete the Tcl
    command of a name comes right after the erase of the forward-map entry
    of that name. *)
Theorem events_in_order (op : Operation) (t : InstanceTable) :
  (∀ pre type object post,
     trace (run op t) =
       (pre ++ DeleteFunctionCalled type object :: post)%list →
     ∃ pre', pre = (pre' ++ [AddressErased object])%list) ∧
  (∀ pre name post,
     trace (run op t) = (pre ++ TclCommandDeleted name :: post)%list →
     ∃ pre', pre = (pre' ++ [InstanceErased name])%list).
Proof.
  destruct (run_well_formed op t) as (Ho & _ & _). split.
  - intros pre type object post Heq.
    destruct (in_order_before _ _ _ _ _ Ho Heq)
      as [[_ Hg] | (pre' & x & -> & Hg)]; [discriminate|].
    exists pre'. destruct x; try discriminate. cbn in Hg.
    apply bool_decide_eq_true_1 in Hg. now subst.
  - intros pre name post Heq.
    destruct (in_order_before _ _ _ _ _ Ho Heq)
      as [[_ Hg] | (pre' & x & -> & Hg)]; [discriminate|].
    exists pre'. destruct x; try discriminate. cbn in Hg.
    apply bool_decide_eq_true_1 in Hg. now subst.
Qed.

Lemma events_in_order_witness :
  trace (run (OpDeleteObject "whole") nested_table) =
    ([AddressErased 4096; DeleteFunctionCalled 100 4096; AddressErased 8192] ++
     DeleteFunctionCalled 100 8192 ::
     [InstanceErased "part"; TclCommandDeleted "part";
      InstanceErased "whole"; TclCommandDeleted "whole"])%list ∧
  ∃ pre',
    [AddressErased 4096; DeleteFunctionCalled 100 4096; AddressErased 8192] =
    (pre' ++ [AddressErased 8192])%list.
Proof.
  assert (Heq : trace (run (OpDeleteObject "whole") nested_table) =
    ([AddressErased 4096; DeleteFunctionCalled 100 4096; AddressErased 8192] ++
     DeleteFunctionCalled 100 8192 ::
     [InstanceErased "part"; TclCommandDeleted "part";
      InstanceErased "whole"; TclCommandDeleted "whole"])%list)
    by (vm_compute; reflexivity).
  split; [exact Heq|].
  exact (proj1 (events_in_order (OpDeleteObject "whole") nested_table)
           _ _ _ _ Heq).
Defined.

(** X2: an operation that returns has asked Tcl to delete exactly as many
    commands as it has called delete functions; one that throws has asked
    for at most as many. *)
Theorem commands_match_calls (op : Operation) (t : InstanceTable) :
  (count_events is_command_deletion (trace (run op t)) ≤
   count_events is_call (trace (run op t)))%nat ∧
  (result (run op t) = Returned tt →
   count_events is_command_deletion (trace (run op t)) =
   count_events is_call (trace (run op t))).
Proof. destruct (run_well_formed op t) as (_ & Hle & Heq). auto. Qed.

(** ** Exceptions and termination *)

(** X3: on a table whose reverse map is backed by the forward map, an
    operation ends with [UndefinedInstanceNameException] only when it is
    [DeleteObject] or [DeleteIfTemporary] of a name that is not bound;
    [SetObject], [CreateTemporary] and [DeleteCallBack], and every
    notification nested in any operation, never report an undefined
    name. *)
Theorem undefined_name_only_from_unbound (op : Operation) (t : InstanceTable)
    (name : string) :
  consistent t →
  result (run op t) = Thrown (UndefinedInstanceNameException name) →
  (op = OpDeleteObject name ∨ op = OpDeleteIfTemporary name) ∧
  m_InstanceMap t !! name = None.
Proof.
  intros Ht Hres.
  destruct op as [n object type|n|object type|n|object|type func];
    cbn [run] in Hres.
  - now apply SetObject_names_defined in Hres.
  - destruct (DeleteObject_names_defined _ _ _ Ht Hres) as [-> Hn]. auto.
  - unfold bind in Hres. rewrite CreateTemporary_unfold in Hres. cbn in Hres.
    pose proof (SetObject_names_defined (temp_name (m_TempNameNumber t))
      object type _
      (consistent_set_TempNameNumber (fun n => (n + 1) mod UINT_MODULUS) t Ht))
      as Hdef.
    destruct (result (SetObject _ _ _ _)) as [[]|e|]; cbn in Hres;
      try discriminate.
    injection Hres as ->. exfalso. exact (Hdef name eq_refl).
  - rewrite DeleteIfTemporary_unfold in Hres.
    destruct (m_InstanceMap t !! n) as [r|] eqn:Hn.
    + destruct (has_temp_prefix n); [|discriminate].
      destruct (DeleteObject_names_defined _ _ _ Ht Hres) as [_ Hnone].
      congruence.
    + cbn in Hres. injection Hres as <-. auto.
  - now apply DeleteCallBack_names_defined in Hres.
  - discriminate.
Qed.

Lemma undefined_name_only_from_unbound_witness :
  consistent sample_table ∧
  result (run (OpDeleteIfTemporary "zz") sample_table) =
    Thrown (UndefinedInstanceNameException "zz") ∧
  m_InstanceMap sample_table !! "zz" = None.
Proof.
  assert (Hres : result (run (OpDeleteIfTemporary "zz") sample_table) =
                 Thrown (UndefinedInstanceNameException "zz"))
    by (vm_compute; reflexivity).
  split; [exact sample_table_consistent|]. split; [exact Hres|].
  exact (proj2 (undefined_name_only_from_unbound _ _ _
                  sample_table_consistent Hres)).
Defined.

(** X4: re-entrant destruction terminates.  On a table whose reverse map
    is backed by the forward map every operation ends by returning or by
    throwing, however the delete functions notify: a nested [DeleteObject]
    is entered through a reverse-map entry that it erases first, so the
    nesting is bounded by the size of the reverse map, and any larger
    bound gives the same outcome. *)
Theorem operations_terminate (op : Operation) (name : string)
    (t : InstanceTable) (fuel : nat) :
  consistent t →
  (fuel_for t ≤ fuel)%nat →
  result (run op t) ≠ Exhausted ∧
  DeleteObject_fuel fuel name t = DeleteObject name t.
Proof.
  intros Ht Hfuel. split; [|now apply DeleteObject_any_fuel].
  destruct op as [n object type|n|object type|n|object|type func]; cbn [run].
  - now apply SetObject_not_exhausted.
  - now apply DeleteObject_not_exhausted.
  - unfold bind. rewrite CreateTemporary_unfold. cbn.
    pose proof (SetObject_not_exhausted (temp_name (m_TempNameNumber t))
      object type _
      (consistent_set_TempNameNumber (fun n => (n + 1) mod UINT_MODULUS) t Ht)).
    destruct (result (SetObject _ _ _ _)); cbn; congruence.
  - rewrite DeleteIfTemporary_unfold.
    destruct (m_InstanceMap t !! n); [|discriminate].
    destruct (has_temp_prefix n); [|discriminate].
    now apply DeleteObject_not_exhausted.
  - unfold DeleteCallBack, DeleteCallBack_with.
    destruct (m_AddressToNameMap t !! object); [|discriminate].
    now apply DeleteObject_not_exhausted.
  - discriminate.
Qed.

Lemma operations_terminate_witness :
  consistent nested_table ∧
  (fuel_for nested_table ≤ 100)%nat ∧
  result (run (OpDeleteObject "whole") nested_table) ≠ Exhausted ∧
  DeleteObject_fuel 100 "whole" nested_table =
    DeleteObject "whole" nested_table.
Proof.
  assert (Hc : consistent nested_table)
    by apply reachable_consistent, reachable_run_all, reachable_new.
  assert (Hfuel : (fuel_for nested_table ≤ 100)%nat)
    by (vm_compute; repeat constructor).
  split; [exact Hc|]. split; [exact Hfuel|].
  exact (operations_terminate (OpDeleteObject "whole") "whole" nested_table
           100 Hc Hfuel).
Defined.

(** ** What destruction and registration leave alone *)

(** X5: on a table whose reverse map is backed by the forward map,
    [DeleteObject], [DeleteIfTemporary] and [DeleteCallBack] only remove:
    whatever they return or throw, both maps afterwards are sub-maps of the
    maps before, a name whose erase is not in the trace keeps its entry,
    and the delete functions and the temporary counter are untouched. *)
Theorem destruction_only_removes (name : string) (object : Address)
    (t : InstanceTable) (o : Outcome unit) :
  consistent t →
  o = DeleteObject name t ∨ o = DeleteIfTemporary name t ∨
    o = DeleteCallBack object t →
  m_InstanceMap (final o) ⊆ m_InstanceMap t ∧
  m_AddressToNameMap (final o) ⊆ m_AddressToNameMap t ∧
  (∀ n, ¬ In (InstanceErased n) (trace o) →
        m_InstanceMap (final o) !! n = m_InstanceMap t !! n) ∧
  m_DeleteFunctionMap (final o) = m_DeleteFunctionMap t ∧
  m_TempNameNumber (final o) = m_TempNameNumber t.
Proof.
  intros Ht Ho.
  assert (Hs : shrinks t (trace o) (final o)).
  { destruct Ho as [-> | [-> | ->]].
    - apply (DeleteObject_fuel_ok (fuel_for t) name t Ht).
    - rewrite DeleteIfTemporary_unfold.
      destruct (m_InstanceMap t !! name); [|apply shrinks_refl].
      destruct (has_temp_prefix name); [|apply shrinks_refl].
      apply (DeleteObject_fuel_ok (fuel_for t) name t Ht).
    - apply (DeleteCallBack_nested_ok object t Ht). }
  destruct Hs as [Ha Hi Hf Hn Hk]. auto.
Qed.

Lemma destruction_only_removes_witness :
  consistent nested_table ∧
  m_InstanceMap (final (DeleteCallBack 8192 nested_table))
    ⊆ m_InstanceMap nested_table ∧
  m_InstanceMap (final (DeleteCallBack 8192 nested_table)) !! "whole" =
    m_InstanceMap nested_table !! "whole".
Proof.
  assert (Hc : consistent nested_table)
    by apply reachable_consistent, reachable_run_all, reachable_new.
  destruct (destruction_only_removes "part" 8192 nested_table
              (DeleteCallBack 8192 nested_table) Hc
              (or_intror (or_intror eq_refl)))
    as (Hsub & _ & Hkept & _ & _).
  split; [exact Hc|]. split; [exact Hsub|].
  apply Hkept. vm_compute. intros [H|[H|[H|[H|[]]]]]; discriminate.
Defined.

(** X6: no operation removes a delete function.  On a table whose reverse
    map is backed by the forward map, the delete-function map after an
    operation is the one before, except that [SetDeleteFunction] has
    written its one entry; so a type that had a delete function still has
    one. *)
Theorem delete_functions_kept (op : Operation) (t : InstanceTable) :
  consistent t →
  m_DeleteFunctionMap (final (run op t)) =
    match op with
    | OpSetDeleteFunction type func => <[type := func]> (m_DeleteFunctionMap t)
    | _ => m_DeleteFunctionMap t
    end ∧
  ∀ type, is_Some (m_DeleteFunctionMap t !! type) →
          is_Some (m_DeleteFunctionMap (final (run op t)) !! type).
Proof.
  intros Ht.
  assert (Heq : m_DeleteFunctionMap (final (run op t)) =
    match op with
    | OpSetDeleteFunction type func => <[type := func]> (m_DeleteFunctionMap t)
    | _ => m_DeleteFunctionMap t
    end).
  { destruct op as [n object type|n|object type|n|object|type func];
      cbn [run].
    - now apply SetObject_functions.
    - apply (DeleteObject_fuel_ok (fuel_for t) n t Ht).
    - unfold bind. rewrite CreateTemporary_unfold. cbn.
      pose proof (SetObject_functions (temp_name (m_TempNameNumber t))
        object type _
        (consistent_set_TempNameNumber
           (fun n => (n + 1) mod UINT_MODULUS) t Ht)) as Hf.
      destruct (result (SetObject _ _ _ _)); cbn; exact Hf.
    - rewrite DeleteIfTemporary_unfold.
      destruct (m_InstanceMap t !! n); [|reflexivity].
      destruct (has_temp_prefix n); [|reflexivity].
      apply (DeleteObject_fuel_ok (fuel_for t) n t Ht).
    - apply (DeleteCallBack_nested_ok object t Ht).
    - reflexivity. }
  split; [exact Heq|]. intros type Hsome. rewrite Heq.
  destruct op; try exact Hsome.
  rewrite lookup_insert. case_decide; [eauto | exact Hsome].
Qed.

Lemma delete_functions_kept_witness :
  consistent sample_table ∧
  is_Some (m_DeleteFunctionMap sample_table !! 100) ∧
  is_Some (m_DeleteFunctionMap
             (final (run (OpDeleteObject "a") sample_table)) !! 100).
Proof.
  assert (Hsome : is_Some (m_DeleteFunctionMap sample_table !! 100))
    by (vm_compute; eauto).
  split; [exact sample_table_consistent|]. split; [exact Hsome|].
  exact (proj2 (delete_functions_kept (OpDeleteObject "a") sample_table
                  sample_table_consistent) 100 Hsome).
Defined.

(** X14: [SetDeleteFunction] always returns and writes nothing but the
    entry of its type, a later registration for a type replacing the
    earlier one.  An instance whose type has no delete function, and whose
    [DeleteObject] therefore throws [UndefinedObjectTypeException], is
    destroyed by the same call once a delete function for its type has
    been registered, when that function notifies only the object itself
    or addresses the table does not know. *)
Theorem SetDeleteFunction_unblocks (type0 : TypePtr)
    (func earlier : DeleteFunction) (t : InstanceTable) :
  SetDeleteFunction type0 func t =
    MkOutcome (set_DeleteFunctionMap (insert type0 func) t) []
              (Returned tt) ∧
  final (SetDeleteFunction type0 func
           (final (SetDeleteFunction type0 earlier t))) =
    final (SetDeleteFunction type0 func t) ∧
  ∀ name object type,
    CvQualifiedType_GetType type = type0 →
    m_InstanceMap t !! name =
      Some {| Reference_GetObject := object;
              Reference_GetReferencedType := type |} →
    m_DeleteFunctionMap t !! type0 = None →
    Forall (fun q => m_AddressToNameMap t !! q = None ∨ q = object)
           (func object) →
    result (DeleteObject name t) =
      Thrown (UndefinedObjectTypeException type0) ∧
    DeleteObject name (final (SetDeleteFunction type0 func t)) =
      MkOutcome
        (set_InstanceMap (delete name)
           (set_AddressToNameMap (delete object)
              (final (SetDeleteFunction type0 func t))))
        [AddressErased object; DeleteFunctionCalled type0 object;
         InstanceErased name; TclCommandDeleted name]
        (Returned tt).
Proof.
  split3; [reflexivity | |].
  - cbn. apply table_eq; cbn; try reflexivity. apply insert_insert_eq.
  - intros name object type <- Hname Hnone Hquiet. split.
    + unfold DeleteObject, fuel_for.
      now rewrite (DeleteObject_fuel_no_function _ _ _ _ Hname Hnone).
    + apply (DeleteObject_benign name object type func); cbn;
        [exact Hname | apply lookup_insert_eq | exact Hquiet].
Qed.

Lemma SetDeleteFunction_unblocks_witness :
  (m_InstanceMap sample_table !! "y" =
     Some {| Reference_GetObject := 8192;
             Reference_GetReferencedType := TypeY |} ∧
   m_DeleteFunctionMap sample_table !! 200 = None) ∧
  result (DeleteObject "y" sample_table) =
    Thrown (UndefinedObjectTypeException 200) ∧
  result (DeleteObject "y" (final (SetDeleteFunction 200 freeX sample_table)))
    = Returned tt.
Proof.
  assert (Hname : m_InstanceMap sample_table !! "y" =
                  Some {| Reference_GetObject := 8192;
                          Reference_GetReferencedType := TypeY |})
    by (vm_compute; reflexivity).
  assert (Hnone : m_DeleteFunctionMap sample_table
                    !! CvQualifiedType_GetType TypeY = None)
    by (vm_compute; reflexivity).
  assert (Hquiet : Forall (fun q => m_AddressToNameMap sample_table !! q = None
                                    ∨ q = 8192) (freeX 8192))
    by (unfold freeX; constructor; [right; reflexivity | constructor]).
  destruct (proj2 (proj2 (SetDeleteFunction_unblocks 200 freeX freeX
                             sample_table))
              "y" 8192 TypeY eq_refl Hname Hnone Hquiet)
    as (Hthrown & Hdestroyed).
  split; [split; [exact Hname | exact Hnone]|]. split; [exact Hthrown|].
  now rewrite Hdestroyed.
Defined.

(** ** Temporaries *)

Lemma hex_digit_not_zero d : 0 < d < 16 → hex_digit d ≠ "0"%char.
Proof.
  intros Hd.
  assert (d = 1 ∨ d = 2 ∨ d = 3 ∨ d = 4 ∨ d = 5 ∨ d = 6 ∨ d = 7 ∨
          d = 8 ∨ d = 9 ∨ d = 10 ∨ d = 11 ∨ d = 12 ∨ d = 13 ∨ d = 14 ∨
          d = 15) as Hcases by lia.
  repeat (destruct Hcases as [->|Hcases]; [discriminate|]).
  subst d. discriminate.
Qed.

Lemma hex_fuel_head fuel :
  ∀ n acc, 0 < n < 16 ^ Z.of_nat (S fuel) →
    ∃ d rest, 0 < d < 16 ∧ hex_fuel fuel n acc = String (hex_digit d) rest.
Proof.
  induction fuel as [|fuel IH]; intros n acc Hn.
  - exists n, acc. cbn [hex_fuel]. cbn in Hn.
    rewrite Z.mod_small by lia. split; [lia | reflexivity].
  - cbn [hex_fuel]. destruct (n / 16 =? 0)%Z eqn:Hq.
    + apply Z.eqb_eq in Hq. exists (n mod 16), acc.
      pose proof (Z.div_mod n 16 ltac:(lia)).
      pose proof (Z.mod_pos_bound n 16 ltac:(lia)).
      split; [lia | reflexivity].
    + apply Z.eqb_neq in Hq. apply IH.
      pose proof (Z.div_pos n 16 ltac:(lia) ltac:(lia)).
      split; [lia|].
      apply Z.div_lt_upper_bound; [lia|].
      replace (Z.of_nat (S (S fuel))) with (Z.succ (Z.of_nat (S fuel)))
        in Hn by lia.
      rewrite Z.pow_succ_r in Hn by lia. lia.
Qed.

(** X8: the characters that [%x] produces for a number are its numeral in
    radix 16: hexadecimal digits only, whose value read back is the number,
    with no leading zero for a positive number.  Hence two different
    counter values never mint the same temporary name. *)
Theorem sprintf_x_numeral (n m : Z) :
  (0 ≤ n)%Z → (0 ≤ m)%Z →
  hex_value_from 0 (sprintf_x n) = n ∧
  string_forallb is_hex_digit (sprintf_x n) = true ∧
  ((0 < n)%Z → String.get 0 (sprintf_x n) ≠ Some "0"%char) ∧
  (temp_name n = temp_name m → n = m).
Proof.
  intros Hn Hm. split3; [now apply hex_value_sprintf_x | apply sprintf_x_is_hex |].
  split; [|now apply temp_name_inj].
  intros Hpos. unfold sprintf_x.
  destruct (hex_fuel_head (Z.to_nat (Z.log2 n)) n "") as (d & rest & Hd & ->).
  - split; [exact Hpos|].
    pose proof (Z.log2_spec n Hpos) as [_ Hlt].
    pose proof (Z.log2_nonneg n) as Hlog.
    replace (Z.of_nat (S (Z.to_nat (Z.log2 n)))) with (Z.succ (Z.log2 n))
      by lia.
    pose proof (Z.pow_le_mono_l 2 16 (Z.succ (Z.log2 n)) ltac:(lia)). lia.
  - cbn. intros Heq. injection Heq as Heq. now apply hex_digit_not_zero in Heq.
Qed.

Lemma sprintf_x_numeral_witness :
  ((0 ≤ 48879)%Z ∧ (0 ≤ 48880)%Z) ∧
  sprintf_x 48879 = "beef" ∧
  hex_value_from 0 (sprintf_x 48879) = 48879 ∧
  (temp_name 48879 = temp_name 48880 → 48879 = 48880).
Proof.
  assert (H1 : (0 ≤ 48879)%Z) by lia. assert (H2 : (0 ≤ 48880)%Z) by lia.
  destruct (sprintf_x_numeral 48879 48880 H1 H2) as (Hvalue & _ & _ & Hinj).
  split; [split; assumption|]. split; [vm_compute; reflexivity|].
  split; [exact Hvalue | exact Hinj].
Defined.

(** X7: [CreateTemporary] advances the counter by one, wrapping as an
    [unsigned int] does, whether it returns or throws.  When the name it
    mints is taken by an instance whose type has no delete function, it
    throws [UndefinedObjectTypeException] with no event and with both maps
    as they were, and the number is spent all the same. *)
Theorem CreateTemporary_spends_number (object : Address)
    (type : CvQualifiedType) (t : InstanceTable) :
  consistent t →
  let o := CreateTemporary object type t in
  m_TempNameNumber (final o) = (m_TempNameNumber t + 1) mod UINT_MODULUS ∧
  ∀ r, m_InstanceMap t !! temp_name (m_TempNameNumber t) = Some r →
       m_DeleteFunctionMap t
         !! CvQualifiedType_GetType (Reference_GetReferencedType r) = None →
       result o =
         Thrown (UndefinedObjectTypeException
                   (CvQualifiedType_GetType (Reference_GetReferencedType r))) ∧
       trace o = [] ∧
       m_InstanceMap (final o) = m_InstanceMap t ∧
       m_AddressToNameMap (final o) = m_AddressToNameMap t.
Proof.
  intros Ht o. subst o. rewrite CreateTemporary_unfold. cbn zeta.
  cbn [final trace result]. split.
  - now rewrite SetObject_number.
  - intros r Hname Hnone.
    set (t' := set_TempNameNumber (fun n => (n + 1) mod UINT_MODULUS) t).
    assert (Hdel : DeleteObject (temp_name (m_TempNameNumber t)) t' =
      MkOutcome t' []
        (Thrown (UndefinedObjectTypeException
           (CvQualifiedType_GetType (Reference_GetReferencedType r))))).
    { unfold DeleteObject, fuel_for.
      now rewrite (DeleteObject_fuel_no_function _ _ t' r Hname Hnone). }
    rewrite (SetObject_bound _ _ _ t' r Hname), Hdel. cbn. auto.
Qed.

Lemma CreateTemporary_spends_number_witness :
  let o := CreateTemporary 4096 TypeX occupied_table in
  consistent occupied_table ∧
  m_TempNameNumber occupied_table = 0 ∧
  result o = Thrown (UndefinedObjectTypeException 200) ∧
  m_TempNameNumber (final o) = 1 ∧
  result (CreateTemporary 4096 TypeX (final o)) = Returned "__temp1".
Proof.
  cbv zeta.
  assert (Hc : consistent occupied_table)
    by apply reachable_consistent, reachable_run_all, reachable_new.
  destruct (CreateTemporary_spends_number 4096 TypeX occupied_table Hc)
    as [Hnumber Hfail].
  destruct (Hfail {| Reference_GetObject := 8192;
                     Reference_GetReferencedType := TypeY |}
              ltac:(vm_compute; reflexivity) ltac:(vm_compute; reflexivity))
    as (Hres & _ & _ & _).
  split; [exact Hc|]. split; [reflexivity|]. split; [exact Hres|].
  split; [rewrite Hnumber; reflexivity | vm_compute; reflexivity].
Defined.

(** X13: [CreateTemporary] does not look whether the name it mints is
    free.  When an instance holds that name whose type has a delete
    function that notifies only the occupant itself or addresses the table
    does not know, the occupant is destroyed, its delete function called
    once, and the name is bound to the new object and returned. *)
Theorem CreateTemporary_replaces_occupant (object p1 : Address)
    (type type1 : CvQualifiedType) (func : DeleteFunction)
    (t : InstanceTable) :
  m_InstanceMap t !! temp_name (m_TempNameNumber t) =
    Some {| Reference_GetObject := p1;
            Reference_GetReferencedType := type1 |} →
  m_DeleteFunctionMap t !! CvQualifiedType_GetType type1 = Some func →
  Forall (fun q => m_AddressToNameMap t !! q = None ∨ q = p1) (func p1) →
  let name := temp_name (m_TempNameNumber t) in
  let o := CreateTemporary object type t in
  result o = Returned name ∧
  trace o =
    [AddressErased p1;
     DeleteFunctionCalled (CvQualifiedType_GetType type1) p1;
     InstanceErased name; TclCommandDeleted name;
     InstanceSet name {| Reference_GetObject := object;
                         Reference_GetReferencedType := type |};
     AddressSet object name] ∧
  GetEntry name (final o) =
    MkOutcome (final o) []
      (Returned {| Reference_GetObject := object;
                   Reference_GetReferencedType := type |}).
Proof.
  intros Hname Hfunc Hquiet name o. subst name o.
  rewrite CreateTemporary_unfold. cbn zeta.
  set (t' := set_TempNameNumber (fun n => (n + 1) mod UINT_MODULUS) t).
  rewrite (SetObject_bound _ _ _ t' _ Hname).
  rewrite (DeleteObject_benign _ p1 type1 func t' Hname Hfunc Hquiet).
  cbn. split3; [reflexivity | reflexivity |].
  apply GetEntry_bound. cbn. apply lookup_insert_eq.
Qed.

Lemma CreateTemporary_replaces_occupant_witness :
  (m_InstanceMap occupied_deletable_table !! "__temp0" =
     Some {| Reference_GetObject := 8192;
             Reference_GetReferencedType := TypeX |} ∧
   m_TempNameNumber occupied_deletable_table = 0) ∧
  result (CreateTemporary 4096 TypeY occupied_deletable_table) =
    Returned "__temp0" ∧
  GetEntry "__temp0"
    (final (CreateTemporary 4096 TypeY occupied_deletable_table)) =
    MkOutcome (final (CreateTemporary 4096 TypeY occupied_deletable_table)) []
      (Returned {| Reference_GetObject := 4096;
                   Reference_GetReferencedType := TypeY |}).
Proof.
  assert (Hname : m_InstanceMap occupied_deletable_table
                    !! temp_name (m_TempNameNumber occupied_deletable_table) =
                  Some {| Reference_GetObject := 8192;
                          Reference_GetReferencedType := TypeX |})
    by (vm_compute; reflexivity).
  assert (Hfunc : m_DeleteFunctionMap occupied_deletable_table
                    !! CvQualifiedType_GetType TypeX = Some freeX)
    by (vm_compute; reflexivity).
  assert (Hquiet : Forall (fun q => m_AddressToNameMap occupied_deletable_table
                                      !! q = None ∨ q = 8192) (freeX 8192))
    by (unfold freeX; constructor; [right; reflexivity | constructor]).
  destruct (CreateTemporary_replaces_occupant 4096 8192 TypeY TypeX freeX
              occupied_deletable_table Hname Hfunc Hquiet)
    as (Hres & _ & Hget).
  split; [split; [exact Hname | reflexivity]|].
  split; [exact Hres | exact Hget].
Defined.

(** ** Binding and destroying *)

(** X9: [SetObject] of a free name to an object the table does not track
    returns after its two writes, calls no delete function, and makes the
    name resolve to the object and the object to the name; a following
    [DeleteObject] of the name gives back exactly the table before the
    [SetObject], when the delete function of the type notifies only the
    object itself or addresses the table does not know. *)
Theorem SetObject_DeleteObject_round_trip (name : string) (object : Address)
    (type : CvQualifiedType) (func : DeleteFunction) (t : InstanceTable) :
  m_InstanceMap t !! name = None →
  m_AddressToNameMap t !! object = None →
  m_DeleteFunctionMap t !! CvQualifiedType_GetType type = Some func →
  Forall (fun q => m_AddressToNameMap t !! q = None ∨ q = object)
         (func object) →
  let o := SetObject name object type t in
  result o = Returned tt ∧
  trace o = [InstanceSet name {| Reference_GetObject := object;
                                 Reference_GetReferencedType := type |};
             AddressSet object name] ∧
  GetEntry name (final o) =
    MkOutcome (final o) []
      (Returned {| Reference_GetObject := object;
                   Reference_GetReferencedType := type |}) ∧
  m_AddressToNameMap (final o) !! object = Some name ∧
  DeleteObject name (final o) =
    MkOutcome t
      [AddressErased object;
       DeleteFunctionCalled (CvQualifiedType_GetType type) object;
       InstanceErased name; TclCommandDeleted name]
      (Returned tt).
Proof.
  intros Hname Hobject Hfunc Hquiet o. subst o.
  rewrite (SetObject_unbound _ _ _ _ Hname). cbn [final trace result].
  split3; [reflexivity | reflexivity |]. split3.
  - apply GetEntry_bound. cbn. apply lookup_insert_eq.
  - cbn. apply lookup_insert_eq.
  - now apply (bind_then_destroy name object type func).
Qed.

Lemma SetObject_DeleteObject_round_trip_witness :
  (m_InstanceMap sample_table !! "n" = None ∧
   m_AddressToNameMap sample_table !! 12288 = None ∧
   m_DeleteFunctionMap sample_table !! 100 = Some freeX) ∧
  final (DeleteObject "n" (final (SetObject "n" 12288 TypeX sample_table))) =
    sample_table.
Proof.
  assert (Hname : m_InstanceMap sample_table !! "n" = None)
    by (vm_compute; reflexivity).
  assert (Hobject : m_AddressToNameMap sample_table !! 12288 = None)
    by (vm_compute; reflexivity).
  assert (Hfunc : m_DeleteFunctionMap sample_table
                    !! CvQualifiedType_GetType TypeX = Some freeX)
    by (vm_compute; reflexivity).
  assert (Hquiet : Forall (fun q => m_AddressToNameMap sample_table !! q = None
                                    ∨ q = 12288) (freeX 12288))
    by (unfold freeX; constructor; [right; reflexivity | constructor]).
  destruct (SetObject_DeleteObject_round_trip "n" 12288 TypeX freeX sample_table
              Hname Hobject Hfunc Hquiet) as (_ & _ & _ & _ & Hback).
  split; [auto|]. now rewrite Hback.
Defined.

(** X10: when the next temporary name is free, the object is not tracked,
    and the delete function of the type notifies only the object itself or
    addresses the table does not know, a temporary created by
    [CreateTemporary] and released by [DeleteIfTemporary] of the returned
    name is destroyed through that delete function, and the table
    afterwards differs from the one before only by the counter. *)
Theorem CreateTemporary_DeleteIfTemporary_round_trip (object : Address)
    (type : CvQualifiedType) (func : DeleteFunction) (t : InstanceTable) :
  m_InstanceMap t !! temp_name (m_TempNameNumber t) = None →
  m_AddressToNameMap t !! object = None →
  m_DeleteFunctionMap t !! CvQualifiedType_GetType type = Some func →
  Forall (fun q => m_AddressToNameMap t !! q = None ∨ q = object)
         (func object) →
  let name := temp_name (m_TempNameNumber t) in
  let o := CreateTemporary object type t in
  result o = Returned name ∧
  DeleteIfTemporary name (final o) =
    MkOutcome
      (set_TempNameNumber (fun n => (n + 1) mod UINT_MODULUS) t)
      [AddressErased object;
       DeleteFunctionCalled (CvQualifiedType_GetType type) object;
       InstanceErased name; TclCommandDeleted name]
      (Returned tt).
Proof.
  intros Hname Hobject Hfunc Hquiet name o. subst name o.
  rewrite CreateTemporary_unfold. cbn zeta.
  set (t' := set_TempNameNumber (fun n => (n + 1) mod UINT_MODULUS) t).
  rewrite (SetObject_unbound _ _ _ t' Hname). cbn [final trace result].
  split; [reflexivity|].
  rewrite DeleteIfTemporary_unfold, temp_name_has_prefix.
  cbn [bound_table set_AddressToNameMap set_InstanceMap m_InstanceMap].
  rewrite lookup_insert_eq.
  now apply (bind_then_destroy _ object type func t').
Qed.

Lemma CreateTemporary_DeleteIfTemporary_round_trip_witness :
  (m_InstanceMap sample_table !! "__temp0" = None ∧
   m_AddressToNameMap sample_table !! 12288 = None ∧
   m_DeleteFunctionMap sample_table !! 100 = Some freeX) ∧
  result (CreateTemporary 12288 TypeX sample_table) = Returned "__temp0" ∧
  m_InstanceMap
    (final (DeleteIfTemporary "__temp0"
              (final (CreateTemporary 12288 TypeX sample_table)))) =
    m_InstanceMap sample_table.
Proof.
  assert (Hname : m_InstanceMap sample_table
                    !! temp_name (m_TempNameNumber sample_table) = None)
    by (vm_compute; reflexivity).
  assert (Hobject : m_AddressToNameMap sample_table !! 12288 = None)
    by (vm_compute; reflexivity).
  assert (Hfunc : m_DeleteFunctionMap sample_table
                    !! CvQualifiedType_GetType TypeX = Some freeX)
    by (vm_compute; reflexivity).
  assert (Hquiet : Forall (fun q => m_AddressToNameMap sample_table !! q = None
                                    ∨ q = 12288) (freeX 12288))
    by (unfold freeX; constructor; [right; reflexivity | constructor]).
  destruct (CreateTemporary_DeleteIfTemporary_round_trip 12288 TypeX freeX
              sample_table Hname Hobject Hfunc Hquiet) as (Hres & Hback).
  split; [auto|]. split; [exact Hres|].
  change "__temp0" with (temp_name (m_TempNameNumber sample_table)).
  now rewrite Hback.
Defined.

(** X11: an object set under two names is destroyed twice.  Let a first
    name hold an object, let a second name be free, and let the delete
    functions of the two types notify only the object itself or addresses
    the table does not know.  After [SetObject] has bound the second name
    to the object, the reverse map resolves the object to the second name;
    [DeleteObject] of the second name calls its delete function on the
    object and leaves the first name bound to it with no reverse entry, so
    that [DeleteCallBack] for the object does nothing; [DeleteObject] of
    the first name then calls its delete function on the same object
    again. *)
Theorem shared_object_destroyed_twice (first second : string)
    (object : Address) (type1 type2 : CvQualifiedType)
    (func1 func2 : DeleteFunction) (t : InstanceTable) :
  m_InstanceMap t !! first =
    Some {| Reference_GetObject := object;
            Reference_GetReferencedType := type1 |} →
  m_InstanceMap t !! second = None →
  m_DeleteFunctionMap t !! CvQualifiedType_GetType type1 = Some func1 →
  m_DeleteFunctionMap t !! CvQualifiedType_GetType type2 = Some func2 →
  Forall (fun q => m_AddressToNameMap t !! q = None ∨ q = object)
         (func1 object) →
  Forall (fun q => m_AddressToNameMap t !! q = None ∨ q = object)
         (func2 object) →
  let t1 := final (SetObject second object type2 t) in
  let o2 := DeleteObject second t1 in
  let o3 := DeleteObject first (final o2) in
  m_AddressToNameMap t1 !! object = Some second ∧
  result o2 = Returned tt ∧
  trace o2 =
    [AddressErased object;
     DeleteFunctionCalled (CvQualifiedType_GetType type2) object;
     InstanceErased second; TclCommandDeleted second] ∧
  m_InstanceMap (final o2) !! first =
    Some {| Reference_GetObject := object;
            Reference_GetReferencedType := type1 |} ∧
  DeleteCallBack object (final o2) = MkOutcome (final o2) [] (Returned tt) ∧
  result o3 = Returned tt ∧
  trace o3 =
    [AddressErased object;
     DeleteFunctionCalled (CvQualifiedType_GetType type1) object;
     InstanceErased first; TclCommandDeleted first] ∧
  deletions_of object (trace o2 ++ trace o3) = 2%nat.
Proof.
  intros Hfirst Hsecond Hf1 Hf2 Hq1 Hq2 t1 o2 o3.
  assert (Hne : first ≠ second) by congruence.
  assert (Ht1 : t1 = bound_table second object type2 t)
    by (subst t1; now rewrite (SetObject_unbound _ _ _ _ Hsecond)).
  assert (Ho2 : o2 =
    MkOutcome (set_InstanceMap (delete second)
                 (set_AddressToNameMap (delete object) t1))
      [AddressErased object;
       DeleteFunctionCalled (CvQualifiedType_GetType type2) object;
       InstanceErased second; TclCommandDeleted second]
      (Returned tt)).
  { subst o2. apply (DeleteObject_benign second object type2 func2);
      rewrite Ht1; cbn.
    - apply lookup_insert_eq.
    - exact Hf2.
    - now apply quiet_after_bind. }
  assert (Hkept : m_InstanceMap (final o2) !! first =
    Some {| Reference_GetObject := object;
            Reference_GetReferencedType := type1 |}).
  { rewrite Ho2, Ht1. cbn.
    rewrite lookup_delete_ne, lookup_insert_ne by congruence. exact Hfirst. }
  assert (Hgone : m_AddressToNameMap (final o2) !! object = None)
    by (rewrite Ho2; cbn; apply lookup_delete_eq).
  assert (Ho3 : o3 =
    MkOutcome (set_InstanceMap (delete first)
                 (set_AddressToNameMap (delete object) (final o2)))
      [AddressErased object;
       DeleteFunctionCalled (CvQualifiedType_GetType type1) object;
       InstanceErased first; TclCommandDeleted first]
      (Returned tt)).
  { subst o3. apply (DeleteObject_benign first object type1 func1).
    - exact Hkept.
    - rewrite Ho2, Ht1. exact Hf1.
    - rewrite Ho2, Ht1. cbn.
      now apply quiet_after_erase, quiet_after_bind. }
  split; [rewrite Ht1; cbn; apply lookup_insert_eq|].
  split; [now rewrite Ho2|]. split; [now rewrite Ho2|].
  split; [exact Hkept|]. split.
  { unfold DeleteCallBack, DeleteCallBack_with. now rewrite Hgone. }
  split; [now rewrite Ho3|]. split; [now rewrite Ho3|].
  rewrite Ho3. rewrite Ho2 at 1. cbn [trace].
  unfold deletions_of. cbn. now rewrite !bool_decide_eq_true_2.
Qed.

Lemma shared_object_destroyed_twice_witness :
  let t1 := final (SetObject "b" 4096 TypeX sample_table) in
  let o2 := DeleteObject "b" t1 in
  let o3 := DeleteObject "a" (final o2) in
  (m_InstanceMap sample_table !! "a" =
     Some {| Reference_GetObject := 4096;
             Reference_GetReferencedType := TypeX |} ∧
   m_InstanceMap sample_table !! "b" = None) ∧
  deletions_of 4096 (trace o2 ++ trace o3) = 2%nat.
Proof.
  cbv zeta.
  assert (Hfirst : m_InstanceMap sample_table !! "a" =
                   Some {| Reference_GetObject := 4096;
                           Reference_GetReferencedType := TypeX |})
    by (vm_compute; reflexivity).
  assert (Hsecond : m_InstanceMap sample_table !! "b" = None)
    by (vm_compute; reflexivity).
  assert (Hfunc : m_DeleteFunctionMap sample_table
                    !! CvQualifiedType_GetType TypeX = Some freeX)
    by (vm_compute; reflexivity).
  assert (Hquiet : Forall (fun q => m_AddressToNameMap sample_table !! q = None
                                    ∨ q = 4096) (freeX 4096))
    by (unfold freeX; constructor; [right; reflexivity | constructor]).
  destruct (shared_object_destroyed_twice "a" "b" 4096 TypeX TypeX freeX freeX
              sample_table Hfirst Hsecond Hfunc Hfunc Hquiet Hquiet)
    as (_ & _ & _ & _ & _ & _ & _ & Htwice).
  split; [auto | exact Htwice].
Defined.

(** X12: destruction is not repeated through the table.  On a table whose
    reverse map is backed by the forward map, after a [DeleteObject] of a
    name that returned, a second [DeleteObject] of the name throws
    [UndefinedInstanceNameException] with no event and no change; after a
    [DeleteCallBack] for an object that returned, a second one for the
    object returns with no event and no change. *)
Theorem second_destruction (name : string) (object : Address)
    (t : InstanceTable) :
  consistent t →
  (result (DeleteObject name t) = Returned tt →
   DeleteObject name (final (DeleteObject name t)) =
     MkOutcome (final (DeleteObject name t)) []
       (Thrown (UndefinedInstanceNameException name))) ∧
  (result (DeleteCallBack object t) = Returned tt →
   DeleteCallBack object (final (DeleteCallBack object t)) =
     MkOutcome (final (DeleteCallBack object t)) [] (Returned tt)).
Proof.
  intros Ht. split.
  - intros Hres. unfold DeleteObject at 1. unfold fuel_for.
    apply DeleteObject_fuel_unbound.
    now apply DeleteObject_returned_unbound with (u := tt).
  - intros Hres.
    assert (Hgone : m_AddressToNameMap (final (DeleteCallBack object t))
                      !! object = None).
    { unfold DeleteCallBack, DeleteCallBack_with in *.
      destruct (m_AddressToNameMap t !! object) as [n|] eqn:Hlook;
        [|exact Hlook].
      destruct (Ht _ _ Hlook) as [type Hname].
      unfold DeleteObject, fuel_for in *.
      destruct (DeleteObject_fuel_returned _ _ _ _ Hres)
        as (fuel' & r & func & _ & Hr & Hfunc & _).
      rewrite Hname in Hr. injection Hr as <-. cbn in Hfunc.
      destruct (DeleteObject_fuel_shape (size (m_AddressToNameMap t))
                  n object type func t Ht Hname Hfunc)
        as (nested & _ & [(_ & _ & _ & Hrev) | (Hno & _)]);
        [exact Hrev | exfalso; exact (Hno tt Hres)]. }
    unfold DeleteCallBack at 1. unfold DeleteCallBack_with.
    now rewrite Hgone.
Qed.

Lemma second_destruction_witness :
  consistent sample_table ∧
  result (DeleteObject "a" sample_table) = Returned tt ∧
  DeleteObject "a" (final (DeleteObject "a" sample_table)) =
    MkOutcome (final (DeleteObject "a" sample_table)) []
      (Thrown (UndefinedInstanceNameException "a")).
Proof.
  assert (Hres : result (DeleteObject "a" sample_table) = Returned tt)
    by (vm_compute; reflexivity).
  split; [exact sample_table_consistent|]. split; [exact Hres|].
  exact (proj1 (second_destruction "a" 4096 sample_table
                  sample_table_consistent) Hres).
Defined.

(** X15: the test of [DeleteIfTemporary] holds exactly of the names that
    are [__temp] followed by anything, digits or not; a name shorter than
    the prefix never passes it, and every name that [CreateTemporary] mints
    does. *)
Theorem has_temp_prefix_exactly (name : string) (n : Z) :
  (has_temp_prefix name = true ↔ ∃ rest, name = temp_prefix ++ rest) ∧
  ((String.length name < 6)%nat → has_temp_prefix name = false) ∧
  has_temp_prefix (temp_name n) = true.
Proof.
  assert (Hiff : has_temp_prefix name = true ↔
                 ∃ rest, name = temp_prefix ++ rest).
  { unfold has_temp_prefix, temp_prefix. split.
    - intros H. apply String.eqb_eq in H.
      do 6 (destruct name as [|? name]; [discriminate|];
            simpl in H; injection H as -> H).
      now exists name.
    - intros [rest ->]. simpl. destruct rest; reflexivity. }
  split3; [exact Hiff | | apply temp_name_has_prefix].
  intros Hshort. apply not_true_is_false. intros Hp.
  apply Hiff in Hp as [rest ->]. rewrite string_length_app in Hshort.
  cbn in Hshort. lia.
Qed.
